(** * word2questions: the Word question-bank converter, embedded in Rocq

    A shallow embedding of [template(模板)/word2questions.js.py]: the line
    patterns, the answer normaliser, the record finaliser, the line-by-line
    parser and the merge with an existing output file, followed by the
    properties the specification states about them.

    Python values are modelled as follows.
    - [str] is a list of Unicode code points ([N]); literals are written as
      UTF-8 text and decoded by [u].
    - The [re] module is modelled by a small backtracking matcher over a
      regular-expression syntax tree; every pattern of the script is written
      out in that syntax.
    - The dictionary [cur]/[buf] of the parser is a record whose fields are
      optional: an absent key is [None], the empty dictionary has every
      field absent.
    - The records read back from an output file are values of the [json]
      module; its decoder is a parameter of the merge, and a reference
      decoder and the encoder of [write_js] serve the examples.
    - The document reader is left out: [parse_docx] starts from the texts
      of the paragraphs, [merge_existing] from the text of the file.
    - Exceptions are the [Raise] results of the type [result]. *)

From Stdlib Require Import String Ascii.
From Stdlib Require Import List NArith ZArith Bool Lia DecimalString Sorted.
Import ListNotations.

Local Open Scope Z_scope.

(* ================================================================== *)
(** * Strings as code-point lists *)
(* ================================================================== *)

Definition cp := N.
Bind Scope N_scope with cp.
Definition str := list cp.

Definition cp_eqb (a b : cp) : bool := N.eqb a b.

Fixpoint str_eqb (a b : str) : bool :=
  match a, b with
  | [], [] => true
  | x :: a', y :: b' => cp_eqb x y && str_eqb a' b'
  | _, _ => false
  end.

(** [x in xs] for a set or list of strings. *)
Definition str_in (x : str) (xs : list str) : bool := existsb (str_eqb x) xs.

(** Code points between [lo] and [hi], both included. *)
Definition between (lo hi c : cp) : bool := (N.leb lo c && N.leb c hi)%bool.

(** Decoding of the UTF-8 text of a literal into code points. *)
Fixpoint utf8_decode (bs : list N) : str :=
  match bs with
  | [] => []
  | b0 :: t0 =>
      if (b0 <? 128)%N then b0 :: utf8_decode t0
      else if (b0 <? 224)%N then
        match t0 with
        | b1 :: t1 => ((b0 mod 32) * 64 + b1 mod 64)%N :: utf8_decode t1
        | _ => []
        end
      else if (b0 <? 240)%N then
        match t0 with
        | b1 :: b2 :: t2 =>
            ((b0 mod 16) * 4096 + (b1 mod 64) * 64 + b2 mod 64)%N
              :: utf8_decode t2
        | _ => []
        end
      else
        match t0 with
        | b1 :: b2 :: b3 :: t3 =>
            ((b0 mod 8) * 262144 + (b1 mod 64) * 4096
             + (b2 mod 64) * 64 + b3 mod 64)%N :: utf8_decode t3
        | _ => []
        end
  end.

Definition u (s : string) : str :=
  utf8_decode (map N_of_ascii (list_ascii_of_string s)).

(** ** Whitespace, [str.strip], [str.replace] *)

(** The characters for which [str.isspace] holds; they are also the
    characters [\s] matches in a pattern over [str]. *)
Definition is_space (c : cp) : bool :=
  (between 9 13 c || between 28 32 c || cp_eqb c 133 || cp_eqb c 160
   || cp_eqb c 5760 || between 8192 8202 c || cp_eqb c 8232
   || cp_eqb c 8233 || cp_eqb c 8239 || cp_eqb c 8287
   || cp_eqb c 12288)%bool.

Fixpoint lstrip (s : str) : str :=
  match s with
  | c :: s' => if is_space c then lstrip s' else s
  | [] => []
  end.

Definition rstrip (s : str) : str := rev (lstrip (rev s)).

(** [s.strip()] *)
Definition strip (s : str) : str := rstrip (lstrip s).

(** [s.replace(old, new)] for a single-character [old] and [new]. *)
Definition replace_char (old new : cp) (s : str) : str :=
  map (fun c => if cp_eqb c old then new else c) s.

(** ** [re.sub] and [re.split] for a pattern [[class]+] *)

(** [re.sub(r"[class]+", [by], s)]: every maximal run of characters of the
    class is replaced by [by]. *)
Fixpoint sub_runs (cls : cp -> bool) (by_ : str) (in_run : bool) (s : str)
  : str :=
  match s with
  | [] => []
  | c :: s' =>
      if cls c
      then (if in_run then [] else by_) ++ sub_runs cls by_ true s'
      else c :: sub_runs cls by_ false s'
  end.

(** [re.split(r"[class]+", s)]: the pieces between the maximal runs of
    characters of the class; a run at either end of [s] leaves an empty
    piece there, as in Python.  [piece] is the (reversed) piece being read
    and [in_run] tells whether the previous character was of the class. *)
Fixpoint split_runs (cls : cp -> bool) (piece : str) (in_run : bool)
    (s : str) : list str :=
  match s with
  | [] => [rev piece]
  | c :: s' =>
      if cls c
      then (if in_run then split_runs cls [] true s'
            else rev piece :: split_runs cls [] true s')
      else split_runs cls (c :: piece) false s'
  end.

(** [re.sub(r"\s+", " ", s or "").strip()] *)
Definition clean (s : str) : str := strip (sub_runs is_space [32%N] false s).

(** ** Removing repetitions *)

(** Two ways of removing repetitions from a list: a loop that carries the
    set of the keys it has met, as the script writes it twice, and the list
    in which every element removes its later namesakes. *)
Section KeepFirstDef.

Variable A : Type.
Variable key : A -> str.

Fixpoint seen_loop (seen : list str) (l : list A) : list A :=
  match l with
  | [] => []
  | x :: l' =>
      if str_in (key x) seen then seen_loop seen l'
      else x :: seen_loop (key x :: seen) l'
  end.

Fixpoint keep_first (l : list A) : list A :=
  match l with
  | [] => []
  | x :: l' =>
      x :: filter (fun y => negb (str_eqb (key y) (key x))) (keep_first l')
  end.

Definition unseen (seen : list str) (y : A) : bool :=
  negb (str_in (key y) seen).

End KeepFirstDef.

Arguments seen_loop {A} key seen l.
Arguments keep_first {A} key l.
Arguments unseen {A} key seen y.

(* ================================================================== *)
(** * The Unicode tables the script relies on *)
(* ================================================================== *)

(** [str.upper] and the pattern class [\d] consult the Unicode character
    database of the interpreter.  The development is parametric in these two
    tables; it only uses that upper-casing never erases a character and that
    on ASCII it is the familiar mapping. *)

Definition ascii_upper (c : cp) : cp :=
  if between 97 122 c then (c - 32)%N else c.

Class UnicodeData := {
  (** the full upper-case mapping of one character (it may give several:
      the sharp s becomes SS) *)
  toupper_full : cp -> str;
  (** the value of a decimal digit (general category Nd), if it is one *)
  decimal_value : cp -> option Z;
  toupper_full_nonempty : forall c, toupper_full c <> [];
  toupper_full_ascii :
    forall c, (c < 128)%N -> toupper_full c = [ascii_upper c]
}.

(** The tables restricted to ASCII, for running the script on concrete
    documents: they agree with the interpreter's on the ASCII characters and
    on the Chinese characters and punctuation marks (which have no case and
    are no digits) the examples below are written in. *)
Definition ascii_decimal (c : cp) : option Z :=
  if between 48 57 c then Some (Z.of_N c - 48) else None.

Definition AsciiTables : UnicodeData := {|
  toupper_full := fun c => [ascii_upper c];
  decimal_value := ascii_decimal;
  toupper_full_nonempty := fun c H =>
    eq_ind [ascii_upper c]
      (fun l => match l with [] => False | _ :: _ => True end) I [] H;
  toupper_full_ascii := fun c _ => eq_refl
|}.

(* ================================================================== *)
(** * A backtracking matcher for the patterns of [re] *)
(* ================================================================== *)

Inductive regex : Type :=
| Eps                                   (* the empty pattern *)
| Chr (cls : cp -> bool)                (* one character of a class *)
| Cat (r1 r2 : regex)                   (* r1 r2 *)
| Alt (r1 r2 : regex)                   (* r1|r2, r1 tried first *)
| Rep (greedy : bool) (r : regex)       (* r* when greedy, r*? otherwise *)
| Grp (i : nat) (r : regex)             (* capturing group number i *)
| Bol                                   (* ^ *)
| Eol.                                  (* $ *)

(** The state of a match attempt: the position in the subject, what is left
    of the subject, and the groups captured so far (latest first). *)
Record mstate := MState {
  m_pos : nat;
  m_rest : str;
  m_caps : list (nat * str)
}.

Definition orelse {A} (a : option A) (b : unit -> option A) : option A :=
  match a with
  | Some x => Some x
  | None => b tt
  end.

(** [rmatch r k st] matches [r] at [st] and hands every way of doing so, in
    the order a backtracking matcher tries them, to the continuation [k]
    until one succeeds. *)
Fixpoint rmatch (r : regex) (k : mstate -> option mstate) (st : mstate)
  {struct r} : option mstate :=
  match r with
  | Eps => k st
  | Chr cls =>
      match m_rest st with
      | c :: rest' =>
          if cls c then k (MState (S (m_pos st)) rest' (m_caps st)) else None
      | [] => None
      end
  | Cat r1 r2 => rmatch r1 (rmatch r2 k) st
  | Alt r1 r2 => orelse (rmatch r1 k st) (fun _ => rmatch r2 k st)
  | Rep greedy r1 =>
      (fix loop (fuel : nat) (st : mstate) {struct fuel} : option mstate :=
         match fuel with
         | O => k st
         | S fuel' =>
             let again := fun _ : unit =>
               rmatch r1
                 (fun st' =>
                    if Nat.ltb (length (m_rest st')) (length (m_rest st))
                    then loop fuel' st' else None) st in
             if greedy then orelse (again tt) (fun _ => k st)
             else orelse (k st) again
         end) (length (m_rest st)) st
  | Grp i r1 =>
      rmatch r1
        (fun st' =>
           k (MState (m_pos st') (m_rest st')
                ((i, firstn (m_pos st' - m_pos st) (m_rest st))
                   :: m_caps st'))) st
  | Bol => if Nat.eqb (m_pos st) 0 then k st else None
  | Eol =>
      match m_rest st with
      | [] => k st
      | [10%N] => k st
      | _ => None
      end
  end.

(** A match object: the captured groups. *)
Definition match_obj := list (nat * str).

(** [pattern.match(s)] *)
Definition re_match (r : regex) (s : str) : option match_obj :=
  option_map m_caps (rmatch r Some (MState 0 s [])).

(** [m.group(i)]: [None] when the group took no part in the match. *)
Fixpoint group (m : match_obj) (i : nat) : option str :=
  match m with
  | [] => None
  | (j, s) :: m' => if Nat.eqb i j then Some s else group m' i
  end.

(** [re.search(pattern, s)]: the first position at which the pattern
    matches.  [pos] is the position of [s] in the whole subject. *)
Fixpoint re_search_from (r : regex) (pos : nat) (s : str)
  : option match_obj :=
  match rmatch r Some (MState pos s []) with
  | Some st => Some (m_caps st)
  | None =>
      match s with
      | [] => None
      | _ :: s' => re_search_from r (S pos) s'
      end
  end.

Definition re_search (r : regex) (s : str) : option match_obj :=
  re_search_from r 0 s.

(** ** Pattern combinators *)

Declare Scope regex_scope.
Delimit Scope regex_scope with re.
Bind Scope regex_scope with regex.
Infix "++" := Cat (right associativity, at level 60) : regex_scope.
Infix "||" := Alt (left associativity, at level 50) : regex_scope.

Definition star (r : regex) : regex := Rep true r.
Definition lazy_star (r : regex) : regex := Rep false r.
Definition plus (r : regex) : regex := Cat r (Rep true r).
Definition lazy_plus (r : regex) : regex := Cat r (Rep false r).
Definition opt (r : regex) : regex := Alt r Eps.

(** A literal character, a literal string, a set of characters. *)
Definition chr (c : cp) : regex := Chr (cp_eqb c).
Fixpoint lit (s : str) : regex :=
  match s with
  | [] => Eps
  | c :: s' => Cat (chr c) (lit s')
  end.
Definition one_of (cs : str) : regex := Chr (fun c => existsb (cp_eqb c) cs).

(** [.] matches anything but a newline; [[\s\S]] matches anything. *)
Definition dot : regex := Chr (fun c => negb (cp_eqb c 10)).
Definition any_char : regex := Chr (fun _ => true).
Definition ws : regex := Chr is_space.                  (* \s *)
Definition non_ws : regex := Chr (fun c => negb (is_space c)).  (* \S *)
Definition is_letter (c : cp) : bool :=
  (between 65 90 c || between 97 122 c)%bool.           (* [A-Za-z] *)
Definition is_upper_AZ (c : cp) : bool := between 65 90 c.   (* [A-Z] *)

(* ================================================================== *)
(** * The script *)
(* ================================================================== *)

Inductive exn := IndexError | TypeError | ValueError.

Inductive result (A : Type) : Type :=
| Ok (a : A)
| Raise (e : exn).
Arguments Ok {A} a.
Arguments Raise {A} e.

Definition bind {A B} (r : result A) (f : A -> result B) : result B :=
  match r with
  | Ok a => f a
  | Raise e => Raise e
  end.

Notation "x <- r ;; k" := (bind r (fun x => k))
  (at level 61, r at next level, right associativity).

(** Truth value of a string: the empty string is false. *)
Definition str_truthy (s : str) : bool :=
  match s with [] => false | _ => true end.

Section Script.

Context {UD : UnicodeData}.

(** [s.upper()] *)
Definition upper (s : str) : str := flat_map toupper_full s.

Definition is_decimal (c : cp) : bool :=
  match decimal_value c with Some _ => true | None => false end.

(** The number of digits [int] converts at most: the interpreter's limit
    on integer string conversion ([sys.get_int_max_str_digits()]) at its
    default value, which the script does not change. *)
Definition int_max_str_digits : N := 4300.

(** The number a string of decimal digits denotes. *)
Definition int_value (s : str) : Z :=
  fold_left
    (fun acc c => 10 * acc + match decimal_value c with
                             | Some v => v
                             | None => 0
                             end) s 0.

(** [int(s)] for a string of decimal digits, which is all the script applies
    it to (the text matched by the group [num]).  Integers are unbounded,
    but a string of more digits than the limit is refused with
    [ValueError]; leading zeros count as digits. *)
Definition int (s : str) : result Z :=
  if (int_max_str_digits <? N.of_nat (length s))%N then Raise ValueError
  else Ok (int_value s).

(** ** The patterns (lines 44-55) *)

Definition digit : regex := Chr is_decimal.             (* \d *)

Definition type_word : regex :=
  (lit (u "单选") || lit (u "多选") || lit (u "判断"))%re.

(** [RE_Q_START]; groups: 1 = num, 2 = typedesc, 3 = qtext. *)
Definition RE_Q_START : regex :=
  (Bol ++ star ws
   ++ Grp 1 (plus digit) ++ star ws ++ one_of (u ".、)") ++ star ws
   ++ opt (opt (one_of (u "（(")) ++ star ws ++ Grp 2 type_word
           ++ star ws ++ one_of (u ")）"))
   ++ star ws
   ++ Grp 3 (star dot)
   ++ Eol)%re.

(** [RE_Q_TYPE_AT_END]; groups: 1 = body, 2 = the type word. *)
Definition RE_Q_TYPE_AT_END : regex :=
  (Grp 1 (lazy_star dot) ++ one_of (u "（(") ++ star ws ++ Grp 2 type_word
   ++ star ws ++ one_of (u ")）") ++ star ws ++ Eol)%re.

Definition RE_OPT : regex :=
  (Bol ++ star ws ++ Grp 1 (Chr is_letter) ++ star ws ++ one_of (u ".、)")
   ++ star ws ++ Grp 2 (star dot ++ non_ws) ++ star ws ++ Eol)%re.

Definition RE_ANS : regex :=
  (Bol ++ star ws ++ (lit (u "答案") || lit (u "正确答案")) ++ star ws
   ++ one_of (u ":：") ++ star ws ++ Grp 1 (lazy_plus dot) ++ star ws
   ++ Eol)%re.

Definition TRUE_SET : list str :=
  [u "对"; u "正确"; u "√"; u "T"; u "TRUE"; u "YES"; u "Y"; u "是"].
Definition FALSE_SET : list str :=
  [u "错"; u "错误"; u "×"; u "F"; u "FALSE"; u "NO"; u "N"; u "否"].

(** ** [extract_type_from_text] (lines 63-72) *)

Definition group_str (m : match_obj) (i : nat) : str :=
  match group m i with Some s => s | None => [] end.

Definition extract_type_from_text (text : str) : option str * str :=
  match re_match RE_Q_TYPE_AT_END text with
  | Some m => (group m 2, clean (group_str m 1))
  | None => (None, clean text)
  end.

(** ** [normalize_answers] (lines 74-106) *)

(** The separator class [[、，,;；\s\+]]. *)
Definition is_sep (c : cp) : bool :=
  (existsb (cp_eqb c) (u "、，,;；+") || is_space c)%bool.

(** The leading letter of a piece, [re.match(r"([A-Z])", p)]. *)
Definition leading_letter (p : str) : option str :=
  match re_match (Grp 1 (Chr is_upper_AZ)) p with
  | Some m => group m 1
  | None => None
  end.

(** The loop of lines 100-105: [seen] is the set of letters met so far. *)
Fixpoint uniq_loop (seen : list str) (letters : list str) : list str :=
  match letters with
  | [] => []
  | ch :: letters' =>
      if str_in ch seen then uniq_loop seen letters'
      else ch :: uniq_loop (ch :: seen) letters'
  end.

Definition answer_parts (ans_text : str) : list str :=
  filter str_truthy (split_runs is_sep [] false (upper (strip ans_text))).

Definition normalize_answers (ans_text q_type : str) : result (list str) :=
  let parts := answer_parts ans_text in
  if str_eqb q_type (u "判断") then
    match parts with
    | [] => Raise IndexError                         (* parts[0] *)
    | token :: _ =>
        if (str_in token TRUE_SET || str_in (upper token) TRUE_SET)%bool
        then Ok [u "A"]
        else if (str_in token FALSE_SET || str_in (upper token) FALSE_SET)%bool
        then Ok [u "B"]
        else if str_in token [u "A"; u "B"] then Ok [token]
        else Ok []
    end
  else
    let letters :=
      flat_map (fun p => match leading_letter p with
                         | Some l => [l]
                         | None => []
                         end) parts in
    Ok (uniq_loop [] letters).

(** ** The dictionaries of the parser *)

(** An option of a question, [{"label": ..., "text": ...}]. *)
Record opt_item := OptItem { label : str; text : str }.

(** What the key [answer] may hold: a string or a list of labels. *)
Inductive answer_val :=
| AStr (s : str)
| AList (l : list str).

(** The dictionary [cur] / [buf]; an absent key is [None]. *)
Record dict := Dict {
  options : option (list opt_item);
  answer : option answer_val;
  qtype : option str;
  question : option str;
  number : option Z
}.

(** [{}] *)
Definition empty_dict : dict := Dict None None None None None.

Definition is_some {A} (o : option A) : bool :=
  match o with Some _ => true | None => false end.

(** Truth value of a dictionary: false when it has no key. *)
Definition dict_truthy (d : dict) : bool :=
  (is_some (options d) || is_some (answer d) || is_some (qtype d)
   || is_some (question d) || is_some (number d))%bool.

Definition set_options (d : dict) (v : list opt_item) : dict :=
  Dict (Some v) (answer d) (qtype d) (question d) (number d).
Definition set_answer (d : dict) (v : answer_val) : dict :=
  Dict (options d) (Some v) (qtype d) (question d) (number d).
Definition set_type (d : dict) (v : str) : dict :=
  Dict (options d) (answer d) (Some v) (question d) (number d).
Definition set_question (d : dict) (v : str) : dict :=
  Dict (options d) (answer d) (qtype d) (Some v) (number d).
Definition set_number (d : dict) (v : Z) : dict :=
  Dict (options d) (answer d) (qtype d) (question d) (Some v).

(** [d.get(key, default)] *)
Definition get_or {A} (o : option A) (default : A) : A :=
  match o with Some v => v | None => default end.

(** ** [flush_current] (lines 108-137) *)

Definition default_options : list opt_item :=
  [OptItem (u "A") (u "正确"); OptItem (u "B") (u "错误")].

(** The loop of lines 118-126. *)
Fixpoint clean_options (seen : list str) (opts : list opt_item)
  : list opt_item :=
  match opts with
  | [] => []
  | opt :: opts' =>
      let label := upper (label opt) in
      let text := clean (text opt) in
      if (negb (str_truthy label) || negb (str_truthy text)
          || str_in label seen)%bool
      then clean_options seen opts'
      else OptItem label text :: clean_options (label :: seen) opts'
  end.

Definition is_judge (t : option str) : bool :=
  match t with Some t => str_eqb t (u "判断") | None => false end.

Definition list_truthy {A} (o : option (list A)) : bool :=
  match o with Some (_ :: _) => true | _ => false end.

(** [flush_current] changes both of its arguments; it is modelled as
    returning the list and the dictionary after the call. *)
Definition flush_current (q_list : list dict) (buf : dict)
  : list dict * dict :=
  if negb (dict_truthy buf) then (q_list, buf)
  else
    let buf :=
      if (is_judge (qtype buf) && negb (list_truthy (options buf)))%bool
      then set_options buf default_options else buf in
    let buf := set_options buf (clean_options [] (get_or (options buf) [])) in
    let ans :=
      match get_or (answer buf) (AList []) with
      | AStr s => AList (if str_truthy s then [s] else [])
      | AList l => AList l
      end in
    let buf := set_answer buf ans in
    if str_truthy (clean (get_or (question buf) []))
    then (q_list ++ [buf], buf)
    else (q_list, buf).

(** ** [parse_docx] (lines 139-215) *)

(** The local variables of the loop. *)
Record pstate := PState {
  questions : list dict;
  cur : dict;
  auto_num : Z
}.

(** [a or b] for an optional string [a]. *)
Definition or_str (a : option str) (b : str) : str :=
  match a with
  | Some s => if str_truthy s then s else b
  | None => b
  end.

Definition opt_truthy (a : option str) : bool :=
  match a with Some s => str_truthy s | None => false end.

(** One turn of the loop of lines 156-208, on the line [raw]. *)
Definition step (respect_word_number : bool) (st : pstate) (raw : str)
  : result pstate :=
  let line := strip raw in
  match re_match RE_Q_START line with
  | Some m =>
      let questions := fst (flush_current (questions st) (cur st)) in
      let cur := Dict (Some []) (Some (AList [])) None None None in
      num_in_doc <- int (group_str m 1) ;;
      let typedesc := group m 2 in
      let qtext := strip (group_str m 3) in
      let '(typ2, qtext2) := extract_type_from_text qtext in
      let q_type := or_str typedesc (or_str typ2 (u "单选")) in
      let cur := set_type cur q_type in
      let cur :=
        set_question cur (clean (if opt_truthy typ2 then qtext2 else qtext)) in
      if respect_word_number
      then Ok (PState questions (set_number cur num_in_doc) (num_in_doc + 1))
      else Ok (PState questions (set_number cur (auto_num st))
                 (auto_num st + 1))
  | None =>
      match re_match RE_OPT line, dict_truthy (cur st) with
      | Some m2, true =>
          let label := upper (group_str m2 1) in
          let text := group_str m2 2 in
          let cur :=
            set_options (cur st)
              (get_or (options (cur st)) [] ++ [OptItem label (clean text)]) in
          Ok (PState (questions st) cur (auto_num st))
      | _, _ =>
          match re_match RE_ANS line, dict_truthy (cur st) with
          | Some m3, true =>
              let ans_text := group_str m3 1 in
              ans <- normalize_answers ans_text
                       (get_or (qtype (cur st)) (u "单选")) ;;
              Ok (PState (questions st) (set_answer (cur st) (AList ans))
                    (auto_num st))
          | _, _ =>
              if (dict_truthy (cur st) && str_truthy line)%bool then
                let '(typ2, body2) := extract_type_from_text line in
                let cur := if opt_truthy typ2
                           then set_type (cur st) (get_or typ2 [])
                           else cur st in
                let line := if opt_truthy typ2 then body2 else line in
                let cur :=
                  set_question cur
                    (clean (strip (get_or (question cur) []
                                   ++ [32%N] ++ line))) in
                Ok (PState (questions st) cur (auto_num st))
              else Ok st
          end
      end
  end.

Fixpoint run (respect_word_number : bool) (st : pstate) (lines : list str)
  : result pstate :=
  match lines with
  | [] => Ok st
  | raw :: lines' =>
      st' <- step respect_word_number st raw ;;
      run respect_word_number st' lines'
  end.

(** Lines 142-147: the text of a paragraph as a line. *)
Definition paragraph_line (t : str) : str :=
  strip (replace_char 12288 32 t).

(** [parse_docx], from the texts of the paragraphs of the document. *)
Definition parse_docx (paragraphs : list str) (start_number : Z)
    (respect_word_number : bool) : result (list dict) :=
  let lines := map paragraph_line paragraphs in
  st <- run respect_word_number (PState [] empty_dict start_number)
          (lines ++ [[]]) ;;
  Ok (fst (flush_current (questions st) (cur st))).

(** ** The answer as the specification words it *)

(** The leading letters of the pieces of an answer, in order. *)
Definition leading_letters (parts : list str) : list str :=
  flat_map (fun p => match leading_letter p with
                     | Some l => [l]
                     | None => []
                     end) parts.

(** A separator of the answer text: the ideographic comma U+3001, the
    fullwidth comma U+FF0C, the comma, the semicolon, the fullwidth
    semicolon U+FF1B, the plus sign, or white space. *)
Definition is_separator (c : cp) : bool :=
  ((c =? 12289) || (c =? 65292) || (c =? 44) || (c =? 59) || (c =? 65307)
   || (c =? 43))%N || is_space c.

(** The tokens of a text: its maximal runs of characters that are no
    separators, in order; none of them is empty.  [token] is the
    (reversed) token being read. *)
Fixpoint tokens (token : str) (s : str) : list str :=
  match s with
  | [] => match token with [] => [] | _ => [rev token] end
  | c :: s' =>
      if is_separator c
      then match token with
           | [] => tokens [] s'
           | _ => rev token :: tokens [] s'
           end
      else tokens (c :: token) s'
  end.

(** The leading letter of a token: its first character, when that is a
    capital letter from A to Z. *)
Definition first_capital (token : str) : option str :=
  match token with
  | c :: _ => if ((65 <=? c) && (c <=? 90))%N then Some [c] else None
  | [] => None
  end.

(** The leading-letter extraction of an answer text: the leading letters
    of the tokens of the trimmed text in upper case, each letter once, at
    its first place. *)
Definition extracted_labels (ans_text : str) : list str :=
  keep_first (fun l => l)
    (flat_map (fun t => match first_capital t with
                        | Some l => [l]
                        | None => []
                        end)
       (tokens [] (upper (strip ans_text)))).

(** ** The options as the specification words them *)

(** An option with its label in upper case and its text cleaned. *)
Definition normalize_option (o : opt_item) : opt_item :=
  OptItem (upper (label o)) (clean (text o)).

(** An option is dropped when its label or its cleaned text is empty. *)
Definition option_kept (o : opt_item) : bool :=
  (str_truthy (label o) && str_truthy (clean (text o)))%bool.

(** The options that are kept, normalised, the first of every label. *)
Definition finalized_options (opts : list opt_item) : list opt_item :=
  keep_first label (map normalize_option (filter option_kept opts)).

(** The options the cleaning loop starts from: the two defaults for a
    true-false record without options, the record's own otherwise. *)
Definition options_to_clean (buf : dict) : list opt_item :=
  if (is_judge (qtype buf) && negb (list_truthy (options buf)))%bool
  then default_options else get_or (options buf) [].

(** ** What [flush_current] leaves in the dictionary *)

Definition finalized_answer (buf : dict) : answer_val :=
  match get_or (answer buf) (AList []) with
  | AStr s => AList (if str_truthy s then [s] else [])
  | AList l => AList l
  end.

(** The dictionary after the call, for a dictionary with a key. *)
Definition finalized (buf : dict) : dict :=
  Dict (Some (finalized_options (options_to_clean buf)))
       (Some (finalized_answer buf)) (qtype buf) (question buf) (number buf).

(** A record is worth keeping when its cleaned question text is not empty;
    it then has a question, and that question is not empty either. *)
Definition has_question (r : dict) : Prop :=
  exists q, question r = Some q /\ q <> [] /\ clean q <> [].

(** ** The kinds of line *)

(** A question-start line: [RE_Q_START] matches it. *)
Definition is_q_start (raw : str) : bool :=
  is_some (re_match RE_Q_START (strip raw)).

(** An option line, for an open record: not a question start, and [RE_OPT]
    matches it. *)
Definition is_option_line (raw : str) : bool :=
  (negb (is_q_start raw) && is_some (re_match RE_OPT (strip raw)))%bool.

(** An answer line, for an open record: neither of the former, and [RE_ANS]
    matches it. *)
Definition is_answer_line (raw : str) : bool :=
  (negb (is_q_start raw) && negb (is_some (re_match RE_OPT (strip raw)))
   && is_some (re_match RE_ANS (strip raw)))%bool.

(** The answer text of an answer line, group 1 of [RE_ANS]. *)
Definition answer_text (raw : str) : str :=
  match re_match RE_ANS (strip raw) with
  | Some m => group_str m 1
  | None => []
  end.

Definition count_starts (lines : list str) : nat :=
  length (filter is_q_start lines).

(** The state [parse_docx] starts its loop in. *)
Definition initial (start_number : Z) : pstate :=
  PState [] empty_dict start_number.

End Script.

(* ================================================================== *)
(** * Merging with an existing output file *)
(* ================================================================== *)

(** The values [json.loads] produces.  A float is kept as the literal that
    denotes it: the script never looks inside one.  A dictionary is the list
    of its items in insertion order, every key once. *)
#[local] Set Warnings "-register-all".
Inductive pyval : Type :=
| PyNone
| PyBool (b : bool)
| PyInt (z : Z)
| PyFloat (literal : str)
| PyStr (s : str)
| PyList (l : list pyval)
| PyDict (d : list (str * pyval)).

(** [d[k] = v] on the items of a dictionary: the value of an existing key
    is replaced in place, a new key goes to the end. *)
Fixpoint dict_set (k : str) (v : pyval) (d : list (str * pyval))
  : list (str * pyval) :=
  match d with
  | [] => [(k, v)]
  | (k', v') :: d' =>
      if str_eqb k' k then (k', v) :: d' else (k', v') :: dict_set k v d'
  end.

(** [d.get(k)] *)
Fixpoint dict_get (k : str) (d : list (str * pyval)) : option pyval :=
  match d with
  | [] => None
  | (k', v') :: d' => if str_eqb k' k then Some v' else dict_get k d'
  end.

(** [item["number"] = n]: only a dictionary can be assigned to at a string
    key. *)
Definition set_item_number (item : pyval) (n : Z) : result pyval :=
  match item with
  | PyDict d => Ok (PyDict (dict_set (u "number") (PyInt n) d))
  | _ => Raise TypeError
  end.

(** [list(v)] *)
Definition py_list (v : pyval) : result (list pyval) :=
  match v with
  | PyList l => Ok l
  | PyDict d => Ok (map (fun kv => PyStr (fst kv)) d)
  | PyStr s => Ok (map (fun c => PyStr [c]) s)
  | _ => Raise TypeError
  end.

(** The decoder of the [json] module: [None] when it raises. *)
Class JsonDecoder := { json_loads : str -> option pyval }.

(** The pattern of line 222; group 1 is the bracketed payload. *)
Definition RE_WRAPPED : regex :=
  (lit (u "window.questionsData") ++ star ws ++ chr 61 ++ star ws
   ++ Grp 1 (chr 91 ++ lazy_star any_char ++ chr 93)
   ++ star ws ++ chr 59)%re.

(** The loop of lines 235-238. *)
Fixpoint renumber (n : Z) (merged : list pyval) : result (list pyval) :=
  match merged with
  | [] => Ok []
  | item :: merged' =>
      item' <- set_item_number item n ;;
      merged'' <- renumber (n + 1) merged' ;;
      Ok (item' :: merged'')
  end.

Section Merge.

Context {JD : JsonDecoder}.

(** [merge_existing]; [file] is the text of the file at [js_path], [None]
    when there is no such file.  The result is a new list; that the
    renumbering loop assigns into the very dictionaries of [new_list] is
    not modelled, the caller only counts them afterwards. *)
Definition merge_existing (file : option str) (new_list : list pyval)
    (renumber_after_merge : bool) (start_number : Z)
  : result (list pyval) :=
  match file with
  | None => Ok new_list
  | Some text =>
      match re_search RE_WRAPPED text with
      | None => Ok new_list
      | Some m =>
          let old_list :=
            match json_loads (group_str m 1) with
            | Some v => v
            | None => PyList []
            end in
          old <- py_list old_list ;;
          let merged := old ++ new_list in
          if renumber_after_merge then renumber start_number merged
          else Ok merged
      end
  end.

End Merge.

(** The records of the parser as [json] values, in the key order of the
    dictionaries the parser builds. *)
Definition opt_to_py (o : opt_item) : pyval :=
  PyDict [(u "label", PyStr (label o)); (u "text", PyStr (text o))].

Definition answer_to_py (a : answer_val) : pyval :=
  match a with
  | AStr s => PyStr s
  | AList l => PyList (map PyStr l)
  end.

Definition item_of {A} (k : string) (f : A -> pyval) (o : option A)
  : list (str * pyval) :=
  match o with
  | Some v => [(u k, f v)]
  | None => []
  end.

Definition dict_to_py (d : dict) : pyval :=
  PyDict (item_of "options" (fun l => PyList (map opt_to_py l)) (options d)
          ++ item_of "answer" answer_to_py (answer d)
          ++ item_of "type" PyStr (qtype d)
          ++ item_of "question" PyStr (question d)
          ++ item_of "number" PyInt (number d)).

(** ** [write_js] (lines 241-245) *)

(** [json.dumps(v, ensure_ascii=False, indent=2)]: the encoder of the [json]
    module for the values above.  Strings keep their characters but for
    the quotation mark, the backslash and the control characters. *)
Definition hex_digit (n : N) : cp :=
  if (n <? 10)%N then (48 + n)%N else (87 + n)%N.

Definition escape_char (c : cp) : str :=
  if cp_eqb c 34 then [92%N; 34%N]
  else if cp_eqb c 92 then [92%N; 92%N]
  else if cp_eqb c 10 then [92%N; 110%N]
  else if cp_eqb c 13 then [92%N; 114%N]
  else if cp_eqb c 9 then [92%N; 116%N]
  else if cp_eqb c 8 then [92%N; 98%N]
  else if cp_eqb c 12 then [92%N; 102%N]
  else if (c <? 32)%N
       then [92%N; 117%N; 48%N; 48%N; hex_digit (c / 16); hex_digit (c mod 16)]
  else [c].

Definition dumps_str (s : str) : str :=
  [34%N] ++ flat_map escape_char s ++ [34%N].

Definition dumps_int (z : Z) : str :=
  u (NilZero.string_of_int (Z.to_int z)).

(** A line break and the indentation of a nesting level. *)
Definition newline_indent (level : nat) : str :=
  10%N :: concat (repeat (u "  ") level).

Fixpoint dumps (level : nat) (v : pyval) {struct v} : str :=
  match v with
  | PyNone => u "null"
  | PyBool true => u "true"
  | PyBool false => u "false"
  | PyInt z => dumps_int z
  | PyFloat literal => literal
  | PyStr s => dumps_str s
  | PyList [] => u "[]"
  | PyList l =>
      u "[" ++ newline_indent (S level)
      ++ (fix items (l : list pyval) : str :=
            match l with
            | [] => []
            | x :: l' =>
                dumps (S level) x
                ++ match l' with
                   | [] => []
                   | _ => u "," ++ newline_indent (S level) ++ items l'
                   end
            end) l
      ++ newline_indent level ++ u "]"
  | PyDict [] => u "{}"
  | PyDict d =>
      u "{" ++ newline_indent (S level)
      ++ (fix items (d : list (str * pyval)) : str :=
            match d with
            | [] => []
            | (k, x) :: d' =>
                dumps_str k ++ u ": " ++ dumps (S level) x
                ++ match d' with
                   | [] => []
                   | _ => u "," ++ newline_indent (S level) ++ items d'
                   end
            end) d
      ++ newline_indent level ++ u "}"
  end.

Definition json_dumps (v : pyval) : str := dumps 0 v.

(** The text [write_js] writes to the output file. *)
Definition write_js (q_list : list pyval) : str :=
  u "window.questionsData = " ++ json_dumps (PyList q_list) ++ u ";"
  ++ [10%N].

(** ** The merge as the specification words it *)

(** A record of the output: a dictionary. *)
Definition is_record (v : pyval) : Prop :=
  match v with PyDict _ => True | _ => False end.

(** The merged list numbered anew, as the specification words it: the
    records in their order, the first with number [n], the next with
    [n + 1], and so on. *)
Definition with_number (n : Z) (item : pyval) : pyval :=
  match item with
  | PyDict d => PyDict (dict_set (u "number") (PyInt n) d)
  | v => v
  end.

Fixpoint renumbered (n : Z) (l : list pyval) : list pyval :=
  match l with
  | [] => []
  | item :: l' => with_number n item :: renumbered (n + 1) l'
  end.

(** The array of a file that has the wrapped-array shape: group 1 of the
    pattern. *)
Definition wrapped_payload (text : str) : option str :=
  option_map (fun m => group_str m 1) (re_search RE_WRAPPED text).

(* ================================================================== *)
(** * A reference JSON decoder *)
(* ================================================================== *)

(** The theorems about [merge_existing] hold for any decoder.  To run the
    merge on concrete files, here is a decoder of JSON texts after the
    grammar the [json] module follows: objects, arrays, strings with their
    escapes, numbers, [true], [false], [null] and the three float names.
    A repeated key keeps its first place and its last value. *)
Module Json.

Definition is_json_ws (c : cp) : bool :=
  (cp_eqb c 32 || cp_eqb c 9 || cp_eqb c 10 || cp_eqb c 13)%bool.

Fixpoint skip_ws (s : str) : str :=
  match s with
  | c :: s' => if is_json_ws c then skip_ws s' else s
  | [] => []
  end.

Definition hex_value (c : cp) : option N :=
  if between 48 57 c then Some (c - 48)%N
  else if between 97 102 c then Some (c - 87)%N
  else if between 65 70 c then Some (c - 55)%N
  else None.

(** Four hexadecimal digits at the head of [s]. *)
Definition hex4 (s : str) : option (N * str) :=
  match s with
  | a :: b :: c :: d :: s' =>
      match hex_value a, hex_value b, hex_value c, hex_value d with
      | Some a, Some b, Some c, Some d =>
          Some (((a * 16 + b) * 16 + c) * 16 + d, s')%N
      | _, _, _, _ => None
      end
  | _ => None
  end.

(** The characters of a string after its opening quote, up to the closing
    quote.  A control character is refused, as the strict decoder does. *)
Fixpoint string_body (fuel : nat) (acc : str) (s : str)
  : option (str * str) :=
  match fuel with
  | O => None
  | S fuel' =>
      match s with
      | [] => None
      | 34%N :: s' => Some (rev acc, s')
      | 92%N :: e :: s' =>
          if cp_eqb e 117 then
            match hex4 s' with
            | Some (hi, s'') =>
                match s'' with
                | 92%N :: 117%N :: s3 =>
                    match hex4 s3 with
                    | Some (lo, s4) =>
                        if (between 55296 56319 hi && between 56320 57343 lo)%bool
                        then string_body fuel'
                               ((65536 + (hi - 55296) * 1024 + (lo - 56320))%N
                                  :: acc) s4
                        else string_body fuel' (hi :: acc) s''
                    | None => string_body fuel' (hi :: acc) s''
                    end
                | _ => string_body fuel' (hi :: acc) s''
                end
            | None => None
            end
          else
            match (if cp_eqb e 34 then Some 34 else if cp_eqb e 92 then Some 92
                   else if cp_eqb e 47 then Some 47
                   else if cp_eqb e 98 then Some 8
                   else if cp_eqb e 102 then Some 12
                   else if cp_eqb e 110 then Some 10
                   else if cp_eqb e 114 then Some 13
                   else if cp_eqb e 116 then Some 9 else None)%N with
            | Some c => string_body fuel' (c :: acc) s'
            | None => None
            end
      | c :: s' =>
          if (c <? 32)%N then None else string_body fuel' (c :: acc) s'
      end
  end.

Definition is_digit (c : cp) : bool := between 48 57 c.

Fixpoint take_digits (s : str) : str * str :=
  match s with
  | c :: s' =>
      if is_digit c then let '(d, r) := take_digits s' in (c :: d, r)
      else ([], s)
  | [] => ([], [])
  end.

Definition digits_value (ds : str) : Z :=
  fold_left (fun acc c => 10 * acc + (Z.of_N c - 48)) ds 0.

(** A number at the head of [s]: an optional minus sign, then a zero or a
    run of digits not starting with zero, then an optional fraction and an
    optional exponent.  Without fraction and exponent it is an integer. *)
Definition json_number (s : str) : option (pyval * str) :=
  let '(neg, s1) := match s with
                    | 45%N :: s' => (true, s')
                    | _ => (false, s)
                    end in
  let '(ds, s2) :=
    match s1 with
    | 48%N :: s' => ([48%N], s')
    | _ => take_digits s1
    end in
  match ds with
  | [] => None
  | _ =>
      let sign := if neg then [45%N] else [] in
      let '(frac, s3) :=
        match s2 with
        | 46%N :: s' =>
            match take_digits s' with
            | ([], _) => ([], s2)
            | (fs, r) => (46%N :: fs, r)
            end
        | _ => ([], s2)
        end in
      let '(ex, s4) :=
        match s3 with
        | e :: s' =>
            if (cp_eqb e 101 || cp_eqb e 69)%bool then
              let '(sg, s'') :=
                match s' with
                | c :: t => if (cp_eqb c 43 || cp_eqb c 45)%bool
                            then ([c], t) else ([], s')
                | [] => ([], s')
                end in
              match take_digits s'' with
              | ([], _) => ([], s3)
              | (es, r) => (e :: sg ++ es, r)
              end
            else ([], s3)
        | [] => ([], s3)
        end in
      match frac, ex with
      | [], [] =>
          Some (PyInt (if neg then - digits_value ds else digits_value ds), s4)
      | _, _ => Some (PyFloat (sign ++ ds ++ frac ++ ex), s4)
      end
  end.

(** [s] without the prefix [p], when it starts with it. *)
Fixpoint drop_prefix (p s : str) : option str :=
  match p, s with
  | [], _ => Some s
  | a :: p', b :: s' => if cp_eqb a b then drop_prefix p' s' else None
  | _, [] => None
  end.

Definition keyword (s : str) : option (pyval * str) :=
  let try (k : str) (v : pyval) :=
    option_map (fun r => (v, r)) (drop_prefix k s) in
  orelse (try (u "null") PyNone) (fun _ =>
  orelse (try (u "true") (PyBool true)) (fun _ =>
  orelse (try (u "false") (PyBool false)) (fun _ =>
  orelse (try (u "NaN") (PyFloat (u "NaN"))) (fun _ =>
  orelse (try (u "Infinity") (PyFloat (u "Infinity"))) (fun _ =>
  try (u "-Infinity") (PyFloat (u "-Infinity"))))))).

(** A value at the head of [s] (after white space is the caller's affair),
    the elements of an array after its first, and the members of an
    object after its first. *)
Fixpoint value (fuel : nat) (s : str) : option (pyval * str) :=
  match fuel with
  | O => None
  | S fuel' =>
      match s with
      | 34%N :: s' =>
          option_map (fun '(t, r) => (PyStr t, r))
            (string_body (S (length s')) [] s')
      | 91%N :: s' =>
          match skip_ws s' with
          | 93%N :: r => Some (PyList [], r)
          | s'' =>
              match value fuel' s'' with
              | Some (v, r) =>
                  option_map (fun '(vs, r') => (PyList (v :: vs), r'))
                    (elements fuel' r)
              | None => None
              end
          end
      | 123%N :: s' =>
          match skip_ws s' with
          | 125%N :: r => Some (PyDict [], r)
          | s'' =>
              option_map (fun '(d, r) => (PyDict d, r)) (members fuel' [] s'')
          end
      | _ => orelse (keyword s) (fun _ => json_number s)
      end
  end
with elements (fuel : nat) (s : str) : option (list pyval * str) :=
  match fuel with
  | O => None
  | S fuel' =>
      match skip_ws s with
      | 93%N :: r => Some ([], r)
      | 44%N :: s' =>
          match value fuel' (skip_ws s') with
          | Some (v, r) =>
              option_map (fun '(vs, r') => (v :: vs, r')) (elements fuel' r)
          | None => None
          end
      | _ => None
      end
  end
with members (fuel : nat) (acc : list (str * pyval)) (s : str)
  : option (list (str * pyval) * str) :=
  match fuel with
  | O => None
  | S fuel' =>
      match s with
      | 34%N :: s' =>
          match string_body (S (length s')) [] s' with
          | Some (k, r) =>
              match skip_ws r with
              | 58%N :: r' =>
                  match value fuel' (skip_ws r') with
                  | Some (v, r'') =>
                      let acc := dict_set k v acc in
                      match skip_ws r'' with
                      | 125%N :: r3 => Some (acc, r3)
                      | 44%N :: r3 => members fuel' acc (skip_ws r3)
                      | _ => None
                      end
                  | None => None
                  end
              | _ => None
              end
          | None => None
          end
      | _ => None
      end
  end.

Definition loads (s : str) : option pyval :=
  match value (S (length s)) (skip_ws s) with
  | Some (v, r) => match skip_ws r with [] => Some v | _ => None end
  | None => None
  end.

Definition Decoder : JsonDecoder := {| json_loads := loads |}.

End Json.

(** A JSON text written with the apostrophe for the quotation mark. *)
Definition jq (s : string) : str := replace_char 39 34 (u s).

(** ** An output file for the examples *)

(** The document whose only question mentions [a[3];], the records
    [parse_docx] makes of it, and the output file [write_js] writes for
    them. *)
Definition array_question_doc : list str :=
  [u "1. int a[3]; 定义了什么"; u "A. 数组"; u "B. 指针"; u "答案：A"].

Definition array_question_records : list pyval :=
  match @parse_docx AsciiTables array_question_doc 1 false with
  | Ok qs => map dict_to_py qs
  | Raise _ => []
  end.

Definition array_question_file : str := write_js array_question_records.

(* ================================================================== *)
(** * Notions for the further properties *)
(* ================================================================== *)

(** Runs of white space reduced to single ordinary spaces: [prev] tells
    whether the character before the string is a space. *)
Fixpoint single_spaced (prev : bool) (t : str) : Prop :=
  match t with
  | [] => True
  | c :: t' =>
      (is_space c = false /\ single_spaced false t')
      \/ (c = 32%N /\ prev = false /\ single_spaced true t')
  end.

(** A label: one capital letter from A to Z. *)
Definition is_label (x : str) : Prop :=
  exists c, x = [c] /\ is_upper_AZ c = true.

(** The ways a pattern matches: [reach r a b] when [r] can take the match
    state [a] to the match state [b]. *)
Inductive reach : regex -> mstate -> mstate -> Prop :=
| reach_eps : forall a, reach Eps a a
| reach_chr : forall cls c pos rest caps,
    cls c = true ->
    reach (Chr cls) (MState pos (c :: rest) caps) (MState (S pos) rest caps)
| reach_cat : forall r1 r2 a b c,
    reach r1 a b -> reach r2 b c -> reach (Cat r1 r2) a c
| reach_alt_l : forall r1 r2 a b, reach r1 a b -> reach (Alt r1 r2) a b
| reach_alt_r : forall r1 r2 a b, reach r2 a b -> reach (Alt r1 r2) a b
| reach_rep_stop : forall g r a, reach (Rep g r) a a
| reach_rep_more : forall g r a b c,
    reach r a b -> reach (Rep g r) b c -> reach (Rep g r) a c
| reach_grp : forall i r a b,
    reach r a b ->
    reach (Grp i r) a
      (MState (m_pos b) (m_rest b)
         ((i, firstn (m_pos b - m_pos a) (m_rest a)) :: m_caps b))
| reach_bol : forall a, m_pos a = 0%nat -> reach Bol a a
| reach_eol : forall a,
    m_rest a = [] \/ m_rest a = [10%N] -> reach Eol a a.

(** Every group numbered [i] inside [r] only captures strings with the
    property [P]. *)
Fixpoint groups_sat (i : nat) (P : str -> Prop) (r : regex) : Prop :=
  match r with
  | Cat r1 r2 | Alt r1 r2 => groups_sat i P r1 /\ groups_sat i P r2
  | Rep _ r1 => groups_sat i P r1
  | Grp j r1 =>
      groups_sat i P r1
      /\ (j = i -> forall a b w,
            reach r1 a b -> m_rest a = w ++ m_rest b -> P w)
  | _ => True
  end.

(** A group numbered [i] takes part in every match of [r]. *)
Fixpoint captures (i : nat) (r : regex) : Prop :=
  match r with
  | Cat r1 r2 => captures i r1 \/ captures i r2
  | Alt r1 r2 => captures i r1 /\ captures i r2
  | Grp j r1 => j = i \/ captures i r1
  | _ => False
  end.

(** One of the three words for the type of a question. *)
Definition is_type_word (t : str) : Prop :=
  t = u "单选" \/ t = u "多选" \/ t = u "判断".

(** An option as the parser leaves it: a label of one capital letter and a
    cleaned text that is not empty. *)
Definition wf_option (o : opt_item) : Prop :=
  is_label (label o) /\ text o <> [] /\ clean (text o) = text o.

(** The five keys of a record, each with a value of its kind. *)
Definition wf_fields (d : dict) : Prop :=
  (exists opts, options d = Some opts /\ Forall wf_option opts)
  /\ (exists l, answer d = Some (AList l) /\ NoDup l /\ Forall is_label l)
  /\ (exists t, qtype d = Some t /\ is_type_word t)
  /\ (exists q, question d = Some q /\ clean q = q)
  /\ (exists n, number d = Some n).

(** A record of the output: moreover no label twice and a question. *)
Definition wf_record (d : dict) : Prop :=
  wf_fields d
  /\ (exists opts, options d = Some opts /\ NoDup (map label opts))
  /\ (exists q, question d = Some q /\ q <> []).

(** The state of the loop is in order: the finished records are records
    of the output, and the open record has its five keys. *)
Definition wf_state (st : pstate) : Prop :=
  Forall wf_record (questions st)
  /\ (dict_truthy (cur st) = true -> wf_fields (cur st)).

(** The numbers of the finished records, without declared numbering: they
    grow, they lie between the start value and the number of the open
    record, and the open record has the number before the counter. *)
Definition numbered (s : Z) (st : pstate) : Prop :=
  let bound := auto_num st - (if dict_truthy (cur st) then 1 else 0) in
  exists ns,
    map number (questions st) = map Some ns
    /\ StronglySorted Z.lt ns
    /\ Forall (fun n => s <= n < bound) ns
    /\ Z.of_nat (length ns) <= bound - s
    /\ (dict_truthy (cur st) = true -> number (cur st) = Some (bound)).

(** The digits at the head of a question-start line, group 1 of
    [RE_Q_START]. *)
Definition number_text {UD : UnicodeData} (raw : str) : str :=
  match re_match RE_Q_START (strip raw) with
  | Some m => group_str m 1
  | None => []
  end.

(** A line the loop gets through: an answer line has a piece in its
    answer text, and the number of a question-start line has no more
    digits than [int] converts. *)
Definition line_passes {UD : UnicodeData} (raw : str) : Prop :=
  (is_answer_line raw = true -> answer_parts (answer_text raw) <> [])
  /\ (is_q_start raw = true ->
      (N.of_nat (length (number_text raw)) <= int_max_str_digits)%N).

(** The number written at the head of a question-start line. *)
Definition declared_number {UD : UnicodeData} (raw : str) : Z :=
  match re_match RE_Q_START (strip raw) with
  | Some m =>
      match int (group_str m 1) with
      | Ok n => n
      | Raise _ => 0
      end
  | None => 0
  end.

(** The records of the parser numbered anew from [n]. *)
Fixpoint number_from (n : Z) (qs : list dict) : list dict :=
  match qs with
  | [] => []
  | d :: qs' => set_number d n :: number_from (n + 1) qs'
  end.

(** A document for the examples, and the records [parse_docx] makes of
    it with declared numbering. *)
Definition sample_doc : list str :=
  [u "题库"; u "1.（单选）劳动的双重含义"; u "a. 精神文明"; u "B、思想境界";
   u "b) 重复"; u "答案：b"; u ""; u "7、下列哪几项 是对的"; u "(多选)";
   u "A. 选项1"; u "C. 选项3"; u "答案：A、C，a"; u "3) 天是蓝的（判断）";
   u "正确答案: yes"; u "4."].

Definition sample_records : list dict :=
  Eval vm_compute in
    match @parse_docx AsciiTables sample_doc 1 true with
    | Ok qs => qs
    | Raise _ => []
    end.

(** A pattern without groups. *)
Fixpoint group_free (r : regex) : Prop :=
  match r with
  | Cat r1 r2 | Alt r1 r2 => group_free r1 /\ group_free r2
  | Rep _ r1 => group_free r1
  | Grp _ _ => False
  | _ => True
  end.

(** The pattern of the merge with any word in the place of the name. *)
Definition wrapped (name : str) : regex :=
  (lit name ++ star ws ++ chr 61 ++ star ws
   ++ Grp 1 (chr 91 ++ lazy_star any_char ++ chr 93)
   ++ star ws ++ chr 59)%re.

(* ================================================================== *)
(** * Basic facts *)
(* ================================================================== *)

Lemma str_eqb_eq : forall a b : str, str_eqb a b = true <-> a = b.
Proof.
  induction a as [|x a IH]; destruct b as [|y b]; simpl; split;
    try congruence; try reflexivity.
  - intros H. apply andb_true_iff in H. destruct H as [Hxy Hab].
    apply N.eqb_eq in Hxy. apply IH in Hab. congruence.
  - intros H. injection H as -> ->. apply andb_true_iff. split.
    + apply N.eqb_refl.
    + apply IH. reflexivity.
Qed.

Lemma str_eqb_refl : forall a : str, str_eqb a a = true.
Proof. intros a. apply str_eqb_eq. reflexivity. Qed.

Lemma str_eqb_neq : forall a b : str, str_eqb a b = false <-> a <> b.
Proof.
  intros a b. split.
  - intros H E. apply str_eqb_eq in E. congruence.
  - intros H. destruct (str_eqb a b) eqn:E; [|reflexivity].
    apply str_eqb_eq in E. contradiction.
Qed.

Lemma str_truthy_true : forall s, str_truthy s = true <-> s <> [].
Proof. destruct s; simpl; split; congruence. Qed.

Lemma str_truthy_false : forall s, str_truthy s = false <-> s = [].
Proof. destruct s; simpl; split; congruence. Qed.

(** ** Keeping the first of every key *)

Section KeepFirst.

Variable A : Type.
Variable key : A -> str.

Lemma filter_filter :
  forall (p q : A -> bool) l,
    filter p (filter q l) = filter (fun y => q y && p y) l.
Proof.
  intros p q l. induction l as [|x l IH]; simpl; [reflexivity|].
  destruct (q x); simpl; [destruct (p x)|]; rewrite IH; reflexivity.
Qed.

(** The loop keeps, of the first of every key, those it has not met. *)
Lemma seen_loop_keep_first :
  forall l seen,
    seen_loop key seen l = filter (unseen key seen) (keep_first key l).
Proof.
  induction l as [|x l IH]; intros seen; simpl; [reflexivity|].
  unfold unseen at 1.
  destruct (str_in (key x) seen) eqn:Hin; simpl.
  - rewrite IH, filter_filter. apply filter_ext. intros y. unfold unseen.
    destruct (str_eqb (key y) (key x)) eqn:E; simpl; [|reflexivity].
    apply str_eqb_eq in E. rewrite E, Hin. reflexivity.
  - f_equal. rewrite IH, filter_filter. apply filter_ext. intros y.
    unfold unseen, str_in. simpl. fold (str_in (key y) seen).
    rewrite negb_orb. reflexivity.
Qed.

Lemma seen_loop_nil_keep_first :
  forall l, seen_loop key [] l = keep_first key l.
Proof.
  intros l. rewrite seen_loop_keep_first.
  induction (keep_first key l) as [|x k IH]; simpl; [reflexivity|].
  unfold unseen at 1. simpl. f_equal. exact IH.
Qed.

Lemma keep_first_incl : forall l x, In x (keep_first key l) -> In x l.
Proof.
  induction l as [|a l IH]; simpl; intros x H; [exact H|].
  destruct H as [H|H]; [left; exact H|].
  right. apply IH. apply filter_In in H. apply H.
Qed.

Lemma keep_first_NoDup : forall l, NoDup (map key (keep_first key l)).
Proof.
  induction l as [|a l IH]; simpl; [constructor|].
  constructor.
  - intros H. apply in_map_iff in H. destruct H as [y [Hk Hy]].
    apply filter_In in Hy. destruct Hy as [_ Hy].
    rewrite Hk, str_eqb_refl in Hy. discriminate.
  - clear -IH.
    induction (keep_first key l) as [|y k IHk]; simpl; [constructor|].
    inversion IH as [|? ? Hnot Hnd]; subst.
    destruct (negb (str_eqb (key y) (key a))); simpl.
    + constructor.
      * intros H. apply Hnot. apply in_map_iff in H.
        destruct H as [z [Hz Hin]]. apply filter_In in Hin.
        apply in_map_iff. exists z. split; [exact Hz | apply Hin].
      * apply IHk. exact Hnd.
    + apply IHk. exact Hnd.
Qed.

(** Every key of the list is the key of a kept element. *)
Lemma keep_first_complete :
  forall l x, In x l -> In (key x) (map key (keep_first key l)).
Proof.
  induction l as [|a l IH]; simpl; intros x H; [contradiction|].
  destruct (str_eqb (key x) (key a)) eqn:E.
  - left. apply str_eqb_eq in E. congruence.
  - destruct H as [H|H]; [subst; rewrite str_eqb_refl in E; discriminate|].
    right. specialize (IH x H). apply in_map_iff in IH.
    destruct IH as [y [Hk Hy]]. apply in_map_iff. exists y.
    split; [exact Hk|]. apply filter_In. split; [exact Hy|].
    rewrite Hk, E. reflexivity.
Qed.

End KeepFirst.

(* ================================================================== *)
(** * The record finaliser *)
(* ================================================================== *)

Section Finaliser.

Context {UD : UnicodeData}.

Lemma upper_nil_iff : forall s, upper s = [] <-> s = [].
Proof.
  intros s. split; [|intros ->; reflexivity].
  destruct s as [|c s]; [reflexivity|]. unfold upper. simpl. intros H.
  apply app_eq_nil in H. destruct H as [H _].
  exfalso. exact (toupper_full_nonempty c H).
Qed.

Lemma upper_truthy : forall s, str_truthy (upper s) = str_truthy s.
Proof.
  intros s. destruct (str_truthy s) eqn:E.
  - apply str_truthy_true. intros H.
    apply (proj1 (upper_nil_iff s)) in H. subst s. discriminate E.
  - apply (proj1 (str_truthy_false s)) in E. subst s. reflexivity.
Qed.

Lemma upper_ascii_letter :
  forall c, (65 <= c <= 90)%N -> upper [c] = [c].
Proof.
  intros c Hc. unfold upper. simpl. rewrite toupper_full_ascii by lia.
  unfold ascii_upper, between.
  replace (97 <=? c)%N with false by (symmetry; apply N.leb_gt; lia).
  reflexivity.
Qed.

Lemma clean_options_seen_loop :
  forall opts seen,
    clean_options seen opts
    = seen_loop label seen (map normalize_option (filter option_kept opts)).
Proof.
  induction opts as [|o opts IH]; intros seen; simpl; [reflexivity|].
  unfold option_kept at 1. rewrite upper_truthy.
  destruct (str_truthy (label o)); simpl; [|apply IH].
  destruct (str_truthy (clean (text o))); simpl; [|apply IH].
  destruct (str_in (upper (label o)) seen); rewrite IH; reflexivity.
Qed.

Lemma clean_options_finalized :
  forall opts, clean_options [] opts = finalized_options opts.
Proof.
  intros opts. rewrite clean_options_seen_loop.
  apply seen_loop_nil_keep_first.
Qed.

Lemma flush_current_truthy :
  forall q_list buf,
    dict_truthy buf = true ->
    flush_current q_list buf
    = (if str_truthy (clean (get_or (question buf) []))
       then q_list ++ [finalized buf] else q_list, finalized buf).
Proof.
  intros q_list buf Ht. unfold flush_current. rewrite Ht. simpl.
  unfold finalized, finalized_answer, options_to_clean.
  rewrite <- clean_options_finalized.
  destruct (is_judge (qtype buf) && negb (list_truthy (options buf)))%bool;
    simpl;
    destruct (str_truthy (clean (get_or (question buf) [])));
    reflexivity.
Qed.

Lemma flush_current_empty :
  forall q_list buf,
    dict_truthy buf = false -> flush_current q_list buf = (q_list, buf).
Proof.
  intros q_list buf Ht. unfold flush_current. rewrite Ht. reflexivity.
Qed.

Lemma clean_truthy_has_question :
  forall r, str_truthy (clean (get_or (question r) [])) = true ->
            has_question r.
Proof.
  intros r H. apply str_truthy_true in H.
  destruct (question r) as [q|] eqn:Eq; simpl in H.
  - exists q. split; [exact Eq|]. split; [|exact H].
    intros ->. apply H. reflexivity.
  - exfalso. apply H. reflexivity.
Qed.

(** [flush_current] either leaves the list alone or appends one record
    with a question. *)
Lemma flush_current_list :
  forall q_list buf,
    fst (flush_current q_list buf) = q_list
    \/ (fst (flush_current q_list buf) = q_list ++ [finalized buf]
        /\ dict_truthy buf = true /\ has_question (finalized buf)).
Proof.
  intros q_list buf. destruct (dict_truthy buf) eqn:Ht.
  - rewrite flush_current_truthy by exact Ht.
    destruct (str_truthy (clean (get_or (question buf) []))) eqn:Eq; simpl.
    + right. split; [reflexivity|]. split; [reflexivity|].
      apply clean_truthy_has_question. exact Eq.
    + left. reflexivity.
  - rewrite flush_current_empty by exact Ht. left. reflexivity.
Qed.

Lemma flush_current_keeps_questions :
  forall q_list buf,
    Forall has_question q_list ->
    Forall has_question (fst (flush_current q_list buf)).
Proof.
  intros q_list buf H.
  destruct (flush_current_list q_list buf) as [E|[E [_ Hq]]]; rewrite E.
  - exact H.
  - apply Forall_app. split; [exact H|]. constructor; [exact Hq|constructor].
Qed.

End Finaliser.

(* ================================================================== *)
(** * The parser *)
(* ================================================================== *)

Section Parser.

Context {UD : UnicodeData}.

(** ** One turn of the loop *)

Lemma set_fields_truthy :
  forall d, dict_truthy d = true ->
    (forall v, dict_truthy (set_options d v) = true)
    /\ (forall v, dict_truthy (set_answer d v) = true)
    /\ (forall v, dict_truthy (set_type d v) = true)
    /\ (forall v, dict_truthy (set_question d v) = true).
Proof.
  intros d H. repeat split; intros v; unfold dict_truthy; simpl;
    rewrite ?orb_true_r; reflexivity.
Qed.

(** [int] refuses a string exactly when it has more digits than the
    limit. *)
Lemma int_raises_iff :
  forall s e,
    int s = Raise e
    <-> ((int_max_str_digits < N.of_nat (length s))%N /\ e = ValueError).
Proof.
  intros s e. unfold int.
  destruct (N.ltb_spec int_max_str_digits (N.of_nat (length s))) as [H|H];
    split.
  - intros E. injection E as <-. split; [exact H|reflexivity].
  - intros [_ ->]. reflexivity.
  - discriminate.
  - intros [H' _]. exfalso. apply (N.lt_irrefl int_max_str_digits).
    apply (N.lt_le_trans _ _ _ H' H).
Qed.

Lemma int_returns :
  forall s,
    (N.of_nat (length s) <= int_max_str_digits)%N ->
    int s = Ok (int_value s).
Proof.
  intros s H. unfold int.
  destruct (N.ltb_spec int_max_str_digits (N.of_nat (length s))) as [H'|H'];
    [|reflexivity].
  exfalso. apply (N.lt_irrefl int_max_str_digits).
  apply (N.lt_le_trans _ _ _ H' H).
Qed.

(** On a question-start line the number at its head is converted first:
    when [int] refuses it, the turn raises what [int] raises. *)
Lemma step_start_raises :
  forall respect st raw m e,
    re_match RE_Q_START (strip raw) = Some m ->
    int (group_str m 1) = Raise e ->
    step respect st raw = Raise e.
Proof.
  intros respect st raw m e Hm Hi. unfold step. rewrite Hm, Hi.
  reflexivity.
Qed.

(** Otherwise the open record is flushed and a new one is opened, with no
    options, no answer, and the next number. *)
Lemma step_start_returns :
  forall respect st raw m n,
    re_match RE_Q_START (strip raw) = Some m ->
    int (group_str m 1) = Ok n ->
    exists c,
      step respect st raw
      = Ok (PState (fst (flush_current (questions st) (cur st))) c
              (if respect then n + 1 else auto_num st + 1))
      /\ number c = Some (if respect then n else auto_num st)
      /\ options c = Some [] /\ answer c = Some (AList [])
      /\ dict_truthy c = true.
Proof.
  intros respect st raw m n Hm Hi. unfold step. rewrite Hm, Hi.
  cbn [bind].
  destruct (extract_type_from_text (strip (group_str m 3))) as [typ2 qtext2].
  destruct respect; eexists;
    (split; [reflexivity|]);
    simpl; repeat split; reflexivity.
Qed.

(** A turn on a question-start line that returns. *)
Lemma step_start :
  forall respect st raw st',
    is_q_start raw = true ->
    step respect st raw = Ok st' ->
    exists c m n,
      re_match RE_Q_START (strip raw) = Some m
      /\ int (group_str m 1) = Ok n
      /\ st' = PState (fst (flush_current (questions st) (cur st))) c
                 (if respect then n + 1 else auto_num st + 1)
      /\ number c = Some (if respect then n else auto_num st)
      /\ options c = Some [] /\ answer c = Some (AList [])
      /\ dict_truthy c = true.
Proof.
  intros respect st raw st' H Hstep. unfold is_q_start in H.
  destruct (re_match RE_Q_START (strip raw)) as [m|] eqn:Hm;
    [|discriminate H].
  destruct (int (group_str m 1)) as [n|e] eqn:Hi.
  - destruct (step_start_returns respect st raw m n Hm Hi)
      as [c [E Hc]].
    rewrite E in Hstep. injection Hstep as <-.
    exists c, m, n. split; [reflexivity|]. split; [exact Hi|].
    split; [reflexivity|exact Hc].
  - rewrite (step_start_raises respect st raw m e Hm Hi) in Hstep.
    discriminate Hstep.
Qed.

(** On any other line the list of finished records, the counter and the
    number of the open record stay as they are. *)
Lemma step_other :
  forall respect st raw st',
    is_q_start raw = false ->
    step respect st raw = Ok st' ->
    questions st' = questions st /\ auto_num st' = auto_num st
    /\ number (cur st') = number (cur st)
    /\ dict_truthy (cur st') = dict_truthy (cur st).
Proof.
  intros respect st raw st' H. unfold is_q_start in H. unfold step.
  destruct (re_match RE_Q_START (strip raw)) as [m|]; [discriminate H|].
  clear H.
  destruct (dict_truthy (cur st)) eqn:Ht.
  - destruct (set_fields_truthy (cur st) Ht) as [Ho [Ha [Hty Hq]]].
    destruct (re_match RE_OPT (strip raw)) as [m2|].
    + intros E. injection E as <-. simpl. rewrite Ho. auto.
    + destruct (re_match RE_ANS (strip raw)) as [m3|].
      * destruct (normalize_answers _ _) as [ans|e]; simpl;
          intros E; [|discriminate E].
        injection E as <-. simpl. rewrite Ha. auto.
      * simpl. destruct (str_truthy (strip raw)).
        -- destruct (extract_type_from_text (strip raw)) as [typ2 body2].
           intros E. injection E as <-. simpl.
           repeat split; try reflexivity.
           ++ destruct (opt_truthy typ2); reflexivity.
           ++ unfold dict_truthy. simpl. rewrite !orb_true_r. reflexivity.
        -- intros E. injection E as <-. auto.
  - destruct (re_match RE_OPT (strip raw)) as [m2|];
      destruct (re_match RE_ANS (strip raw)) as [m3|]; simpl;
      intros E; injection E as <-; auto.
Qed.

(** An answer line under an open record: the answer is set to what
    [normalize_answers] makes of the answer text, for the type the record
    has at that moment; nothing of the former answer remains. *)
Lemma step_answer :
  forall respect st raw,
    dict_truthy (cur st) = true ->
    is_answer_line raw = true ->
    step respect st raw
    = (ans <- normalize_answers (answer_text raw)
                (get_or (qtype (cur st)) (u "单选")) ;;
       Ok (PState (questions st) (set_answer (cur st) (AList ans))
             (auto_num st))).
Proof.
  intros respect st raw Ht H. unfold is_answer_line, is_q_start in H.
  unfold step, answer_text.
  destruct (re_match RE_Q_START (strip raw)); [discriminate H|].
  destruct (re_match RE_OPT (strip raw)); [discriminate H|].
  destruct (re_match RE_ANS (strip raw)); [|discriminate H].
  rewrite Ht. reflexivity.
Qed.

(** A line that is neither a question start nor an answer line leaves the
    answer of the open record alone, and the record open. *)
Lemma step_keeps_answer :
  forall respect st raw,
    dict_truthy (cur st) = true ->
    is_q_start raw = false ->
    is_answer_line raw = false ->
    exists st', step respect st raw = Ok st'
                /\ answer (cur st') = answer (cur st)
                /\ dict_truthy (cur st') = true.
Proof.
  intros respect st raw Ht Hs Ha.
  unfold is_answer_line in Ha. rewrite Hs in Ha. simpl in Ha.
  unfold is_q_start in Hs. unfold step.
  destruct (re_match RE_Q_START (strip raw)); [discriminate Hs|].
  rewrite Ht.
  destruct (re_match RE_OPT (strip raw)) as [m2|].
  - eexists. split; [reflexivity|]. simpl. split; [reflexivity|].
    unfold dict_truthy. reflexivity.
  - simpl in Ha.
    destruct (re_match RE_ANS (strip raw)); [discriminate Ha|]. simpl.
    destruct (str_truthy (strip raw)).
    + destruct (extract_type_from_text (strip raw)) as [typ2 body2].
      eexists. split; [reflexivity|]. simpl. split.
      * destruct (opt_truthy typ2); reflexivity.
      * unfold dict_truthy. simpl. rewrite !orb_true_r. reflexivity.
    + eexists. split; [reflexivity|]. split; [reflexivity|exact Ht].
Qed.

(** ** The whole loop *)

Lemma run_app :
  forall respect lines1 lines2 st,
    run respect st (lines1 ++ lines2)
    = (st' <- run respect st lines1 ;; run respect st' lines2).
Proof.
  induction lines1 as [|l lines1 IH]; intros lines2 st; simpl;
    [reflexivity|].
  destruct (step respect st l) as [st1|e]; simpl; [apply IH|reflexivity].
Qed.

Lemma step_keeps_questions :
  forall respect st raw st',
    Forall has_question (questions st) ->
    step respect st raw = Ok st' ->
    Forall has_question (questions st').
Proof.
  intros respect st raw st' Hq Hstep.
  destruct (is_q_start raw) eqn:Hs.
  - destruct (step_start respect st raw st' Hs Hstep)
      as [c [m [n [_ [_ [-> _]]]]]]. simpl.
    apply flush_current_keeps_questions. exact Hq.
  - destruct (step_other respect st raw st' Hs Hstep) as [E _].
    rewrite E. exact Hq.
Qed.

Lemma run_keeps_questions :
  forall respect lines st st',
    Forall has_question (questions st) ->
    run respect st lines = Ok st' ->
    Forall has_question (questions st').
Proof.
  induction lines as [|l lines IH]; simpl; intros st st' Hq Hrun.
  - injection Hrun as <-. exact Hq.
  - destruct (step respect st l) as [st1|e] eqn:E; simpl in Hrun;
      [|discriminate Hrun].
    apply (IH st1 st'); [|exact Hrun].
    apply (step_keeps_questions respect st l st1 Hq E).
Qed.

(** Without declared numbering the counter advances by one at every
    question-start line and at no other. *)
Lemma run_auto_num :
  forall lines st st',
    run false st lines = Ok st' ->
    auto_num st' = auto_num st + Z.of_nat (count_starts lines).
Proof.
  induction lines as [|l lines IH]; simpl; intros st st' Hrun.
  - injection Hrun as <-. unfold count_starts. simpl. lia.
  - destruct (step false st l) as [st1|e] eqn:E; simpl in Hrun;
      [|discriminate Hrun].
    rewrite (IH st1 st' Hrun). unfold count_starts. simpl.
    destruct (is_q_start l) eqn:Hs.
    + destruct (step_start false st l st1 Hs E)
        as [c [m [n [_ [_ [-> _]]]]]]. simpl.
      change (length (filter is_q_start lines)) with (count_starts lines).
      lia.
    + destruct (step_other false st l st1 Hs E) as [_ [En _]].
      rewrite En. reflexivity.
Qed.

(** Lines without a question start leave the number of the open record
    alone. *)
Lemma run_keeps_number :
  forall respect lines st st',
    forallb (fun l => negb (is_q_start l)) lines = true ->
    run respect st lines = Ok st' ->
    number (cur st') = number (cur st)
    /\ questions st' = questions st.
Proof.
  induction lines as [|l lines IH]; simpl; intros st st' Hno Hrun.
  - injection Hrun as <-. split; reflexivity.
  - apply andb_true_iff in Hno. destruct Hno as [Hl Hno].
    apply negb_true_iff in Hl.
    destruct (step respect st l) as [st1|e] eqn:E; simpl in Hrun;
      [|discriminate Hrun].
    destruct (step_other respect st l st1 Hl E) as [Eq [_ [En _]]].
    destruct (IH st1 st' Hno Hrun) as [En' Eq'].
    split; congruence.
Qed.

(** Lines that are neither question starts nor answer lines leave the
    answer of an open record alone; the loop gets through them. *)
Lemma run_keeps_answer :
  forall respect lines st,
    dict_truthy (cur st) = true ->
    forallb (fun l => negb (is_q_start l) && negb (is_answer_line l)) lines
    = true ->
    exists st', run respect st lines = Ok st'
                /\ answer (cur st') = answer (cur st)
                /\ dict_truthy (cur st') = true.
Proof.
  induction lines as [|l lines IH]; simpl; intros st Ht Hno.
  - exists st. split; [reflexivity|]. split; [reflexivity|exact Ht].
  - apply andb_true_iff in Hno. destruct Hno as [Hl Hno].
    apply andb_true_iff in Hl. destruct Hl as [Hs Ha].
    apply negb_true_iff in Hs. apply negb_true_iff in Ha.
    destruct (step_keeps_answer respect st l Ht Hs Ha) as [st1 [E [Ea Ht1]]].
    rewrite E. simpl.
    destruct (IH st1 Ht1 Hno) as [st' [Hrun [Ea' Ht']]].
    exists st'. split; [exact Hrun|]. split; [congruence|exact Ht'].
Qed.

End Parser.

(* ================================================================== *)
(** * The merge *)
(* ================================================================== *)

Lemma dict_get_set_same :
  forall k v d, dict_get k (dict_set k v d) = Some v.
Proof.
  intros k v d. induction d as [|[k' v'] d IH]; simpl.
  - rewrite str_eqb_refl. reflexivity.
  - destruct (str_eqb k' k) eqn:E; simpl; rewrite E; [reflexivity|exact IH].
Qed.

Lemma dict_get_set_other :
  forall k k0 v d, k0 <> k -> dict_get k0 (dict_set k v d) = dict_get k0 d.
Proof.
  intros k k0 v d Hne. induction d as [|[k' v'] d IH]; simpl.
  - replace (str_eqb k k0) with false; [reflexivity|].
    symmetry. apply str_eqb_neq. congruence.
  - destruct (str_eqb k' k) eqn:E; simpl.
    + apply str_eqb_eq in E. subst k'.
      replace (str_eqb k k0) with false; [reflexivity|].
      symmetry. apply str_eqb_neq. congruence.
    + destruct (str_eqb k' k0); [reflexivity|exact IH].
Qed.

Lemma renumber_records :
  forall l n, Forall is_record l -> renumber n l = Ok (renumbered n l).
Proof.
  induction l as [|item l IH]; intros n H; simpl; [reflexivity|].
  inversion H as [|? ? Hitem Hl]; subst.
  destruct item; simpl in Hitem; try contradiction. simpl.
  rewrite (IH (n + 1) Hl). reflexivity.
Qed.

Lemma renumbered_length :
  forall l n, length (renumbered n l) = length l.
Proof.
  induction l as [|item l IH]; intros n; simpl; [reflexivity|].
  rewrite IH. reflexivity.
Qed.

Lemma renumbered_nth :
  forall l n i item,
    nth_error l i = Some item ->
    nth_error (renumbered n l) i = Some (with_number (n + Z.of_nat i) item).
Proof.
  induction l as [|x l IH]; intros n i item H.
  - destruct i; discriminate H.
  - destruct i as [|i]; simpl in *.
    + injection H as ->. rewrite Z.add_0_r. reflexivity.
    + rewrite (IH (n + 1) i item H). f_equal. f_equal. lia.
Qed.

Section MergeFacts.

Context {JD : JsonDecoder}.

Lemma merge_existing_no_file :
  forall new_list r s, merge_existing None new_list r s = Ok new_list.
Proof. reflexivity. Qed.

Lemma merge_existing_no_shape :
  forall text new_list r s,
    wrapped_payload text = None ->
    merge_existing (Some text) new_list r s = Ok new_list.
Proof.
  intros text new_list r s H. unfold wrapped_payload in H.
  unfold merge_existing.
  destruct (re_search RE_WRAPPED text); [discriminate H|reflexivity].
Qed.

Lemma merge_existing_loaded :
  forall text payload old new_list r s,
    wrapped_payload text = Some payload ->
    json_loads payload = Some (PyList old) ->
    merge_existing (Some text) new_list r s
    = if r then renumber s (old ++ new_list) else Ok (old ++ new_list).
Proof.
  intros text payload old new_list r s H Hl. unfold wrapped_payload in H.
  unfold merge_existing.
  destruct (re_search RE_WRAPPED text) as [m|]; [|discriminate H].
  simpl in H. injection H as H. rewrite H, Hl. reflexivity.
Qed.

Lemma merge_existing_bad_payload :
  forall text payload new_list r s,
    wrapped_payload text = Some payload ->
    json_loads payload = None ->
    merge_existing (Some text) new_list r s
    = if r then renumber s new_list else Ok new_list.
Proof.
  intros text payload new_list r s H Hl. unfold wrapped_payload in H.
  unfold merge_existing.
  destruct (re_search RE_WRAPPED text) as [m|]; [|discriminate H].
  simpl in H. injection H as H. rewrite H, Hl. reflexivity.
Qed.

End MergeFacts.

(* ================================================================== *)
(** * Properties of the answer normaliser *)
(* ================================================================== *)

Section NormaliserFacts.

Context {UD : UnicodeData}.

Lemma uniq_loop_seen_loop :
  forall letters seen,
    uniq_loop seen letters = seen_loop (fun l => l) seen letters.
Proof.
  induction letters as [|ch letters IH]; intros seen; simpl; [reflexivity|].
  destruct (str_in ch seen); rewrite IH; reflexivity.
Qed.

(** For a question that is not true-false the answer is the leading
    letters of the pieces, the first of each. *)
Lemma normalize_answers_choice :
  forall ans_text q_type,
    q_type <> u "判断" ->
    normalize_answers ans_text q_type
    = Ok (keep_first (fun l => l) (leading_letters (answer_parts ans_text))).
Proof.
  intros ans_text q_type H. unfold normalize_answers.
  replace (str_eqb q_type (u "判断")) with false
    by (symmetry; apply str_eqb_neq; exact H).
  rewrite uniq_loop_seen_loop, seen_loop_nil_keep_first. reflexivity.
Qed.

(** The pieces the code keeps are the tokens of the text, and the letter it
    takes from a piece is its first character, when a capital. *)
Lemma separator_characters :
  u "、，,;；+" = [12289; 65292; 44; 59; 65307; 43]%N.
Proof. vm_compute. reflexivity. Qed.

Lemma is_sep_separator : forall c, is_sep c = is_separator c.
Proof.
  intros c. unfold is_sep, is_separator. rewrite separator_characters.
  unfold existsb, cp_eqb. rewrite orb_false_r, !orb_assoc. reflexivity.
Qed.

Lemma split_runs_tokens :
  forall s piece in_run,
    (in_run = true -> piece = []) ->
    filter str_truthy (split_runs is_sep piece in_run s) = tokens piece s.
Proof.
  induction s as [|c s IH]; intros piece in_run H.
  - simpl. destruct piece as [|d piece]; [reflexivity|].
    destruct (rev (d :: piece)) as [|x r] eqn:E; [|reflexivity].
    apply (f_equal (@length cp)) in E. rewrite length_rev in E.
    discriminate E.
  - cbn [split_runs tokens]. rewrite <- is_sep_separator.
    destruct (is_sep c).
    + destruct in_run.
      * rewrite (H eq_refl). apply IH. reflexivity.
      * cbn [filter]. rewrite (IH [] true (fun _ => eq_refl)).
        destruct piece as [|d piece]; [reflexivity|].
        destruct (rev (d :: piece)) as [|x r] eqn:E; [|reflexivity].
        apply (f_equal (@length cp)) in E. rewrite length_rev in E.
        discriminate E.
    + apply IH. discriminate.
Qed.

Lemma answer_parts_tokens :
  forall ans_text,
    answer_parts ans_text = tokens [] (upper (strip ans_text)).
Proof.
  intros ans_text. unfold answer_parts. apply split_runs_tokens.
  discriminate.
Qed.

Lemma leading_letter_first_capital :
  forall p, leading_letter p = first_capital p.
Proof.
  intros [|c p]; [reflexivity|].
  unfold leading_letter, re_match, first_capital. simpl.
  unfold is_upper_AZ, between. destruct (65 <=? c)%N; simpl;
    [|reflexivity].
  destruct (c <=? 90)%N; reflexivity.
Qed.

(** For a question that is not true-false the answer is the
    leading-letter extraction of the answer text. *)
Lemma normalize_answers_extracted :
  forall ans_text q_type,
    q_type <> u "判断" ->
    normalize_answers ans_text q_type = Ok (extracted_labels ans_text).
Proof.
  intros ans_text q_type H.
  rewrite (normalize_answers_choice ans_text q_type H).
  unfold extracted_labels, leading_letters.
  rewrite answer_parts_tokens. f_equal. f_equal.
  apply flat_map_ext. intros p. rewrite leading_letter_first_capital.
  reflexivity.
Qed.

(** For a true-false question the first piece decides; without a piece the
    subscript [parts[0]] raises. *)
Lemma normalize_answers_judge :
  forall ans_text,
    match answer_parts ans_text with
    | [] => normalize_answers ans_text (u "判断") = Raise IndexError
    | token :: _ =>
        exists l, normalize_answers ans_text (u "判断") = Ok l
          /\ ((str_in token TRUE_SET || str_in (upper token) TRUE_SET
               || str_in token FALSE_SET || str_in (upper token) FALSE_SET
               || str_in token [u "A"; u "B"])%bool = false -> l = [])
    end.
Proof.
  intros ans_text. unfold normalize_answers.
  rewrite str_eqb_refl.
  destruct (answer_parts ans_text) as [|token rest]; [reflexivity|].
  destruct (str_in token TRUE_SET) eqn:Et1; cbn [orb].
  { eexists. split; [reflexivity|discriminate]. }
  destruct (str_in (upper token) TRUE_SET) eqn:Et2; cbn [orb].
  { eexists. split; [reflexivity|discriminate]. }
  destruct (str_in token FALSE_SET) eqn:Ef1; cbn [orb].
  { eexists. split; [reflexivity|discriminate]. }
  destruct (str_in (upper token) FALSE_SET) eqn:Ef2; cbn [orb].
  { eexists. split; [reflexivity|discriminate]. }
  destruct (str_in token [u "A"; u "B"]) eqn:Eab.
  { eexists. split; [reflexivity|discriminate]. }
  eexists. split; reflexivity.
Qed.

End NormaliserFacts.

(** C1: for a true-false question, answer text made of separator
    characters only makes [normalize_answers] raise [IndexError] (there is
    no first piece to look at), and the whole parse with it. *)
Theorem normalize_answers_separators_only_raises :
  @normalize_answers AsciiTables (u "、") (u "判断") = Raise IndexError
  /\ @normalize_answers AsciiTables (u ", ;+") (u "判断") = Raise IndexError
  /\ @parse_docx AsciiTables [u "1.（判断）地球是圆的"; u "答案：、"] 1 false
     = Raise IndexError.
Proof. repeat split; vm_compute; reflexivity. Qed.

(* ================================================================== *)
(** * Properties of the merge *)
(* ================================================================== *)

(** C2 as stated fails: a file without the wrapped-array shape gives back
    the new list as it is, also when renumbering is asked for, whereas a
    file holding the empty array gives the new list renumbered. *)
Lemma unmatched_shape_is_not_renumbered :
  @wrapped_payload (u "// not a question bank") = None
  /\ @merge_existing Json.Decoder (Some (u "// not a question bank"))
       [PyDict [(u "number", PyInt 7)]] true 1
     = Ok [PyDict [(u "number", PyInt 7)]]
  /\ @merge_existing Json.Decoder (Some (u "window.questionsData = [];"))
       [PyDict [(u "number", PyInt 7)]] true 1
     = Ok [PyDict [(u "number", PyInt 1)]]
  /\ @merge_existing Json.Decoder (Some (u "// not a question bank"))
       [PyDict [(u "number", PyInt 7)]] true 1
     <> @merge_existing Json.Decoder (Some (u "window.questionsData = [];"))
          [PyDict [(u "number", PyInt 7)]] true 1.
Proof.
  split; [vm_compute; reflexivity|].
  split; [vm_compute; reflexivity|].
  split; [vm_compute; reflexivity|].
  vm_compute. intros H. discriminate H.
Qed.

(** C2, amended: an existing file that has the wrapped-array shape but
    whose array is not valid JSON is merged as a file holding the empty
    array is, renumbering included; an existing file without the shape
    gives back the new list unchanged, renumbering or not. *)
Theorem malformed_existing_output :
  forall (JD : JsonDecoder) (text : str) (new_list : list pyval)
         (r : bool) (s : Z),
    (wrapped_payload text = None ->
     merge_existing (Some text) new_list r s = Ok new_list)
    /\ (forall payload,
          wrapped_payload text = Some payload ->
          json_loads payload = None ->
          merge_existing (Some text) new_list r s
          = (if r then renumber s new_list else Ok new_list)
          /\ (r = true -> Forall is_record new_list ->
              merge_existing (Some text) new_list r s
              = Ok (renumbered s new_list))
          /\ (forall text0 payload0,
                wrapped_payload text0 = Some payload0 ->
                json_loads payload0 = Some (PyList []) ->
                merge_existing (Some text) new_list r s
                = merge_existing (Some text0) new_list r s)).
Proof.
  intros JD text new_list r s. split.
  - apply merge_existing_no_shape.
  - intros payload Hp Hl.
    pose proof (merge_existing_bad_payload text payload new_list r s Hp Hl)
      as E.
    split; [exact E|]. split.
    + intros -> Hrec. rewrite E. apply renumber_records. exact Hrec.
    + intros text0 payload0 Hp0 Hl0.
      rewrite E.
      rewrite (merge_existing_loaded text0 payload0 [] new_list r s Hp0 Hl0).
      reflexivity.
Qed.

Lemma malformed_existing_output_witness :
  @merge_existing Json.Decoder (Some (u "// not a question bank"))
    [PyDict [(u "number", PyInt 7)]] true 1
  = Ok [PyDict [(u "number", PyInt 7)]]
  /\ @merge_existing Json.Decoder
       (Some (jq "window.questionsData = [{'number': 1,];"))
       [PyDict [(u "number", PyInt 7)]] true 1
     = @merge_existing Json.Decoder (Some (u "window.questionsData = [];"))
         [PyDict [(u "number", PyInt 7)]] true 1.
Proof.
  split.
  - apply (proj1 (malformed_existing_output Json.Decoder
                    (u "// not a question bank")
                    [PyDict [(u "number", PyInt 7)]] true 1)).
    vm_compute. reflexivity.
  - destruct (proj2 (malformed_existing_output Json.Decoder
                       (jq "window.questionsData = [{'number': 1,];")
                       [PyDict [(u "number", PyInt 7)]] true 1)
                (jq "[{'number': 1,]")
                ltac:(vm_compute; reflexivity)
                ltac:(vm_compute; reflexivity)) as [_ [_ H]].
    apply (H (u "window.questionsData = [];") (u "[]"));
      vm_compute; reflexivity.
Defined.

(** X14: when the pattern extracts the whole array of the existing file and
    the array decodes to the list [old], merging without renumbering gives
    [old] followed by the new list, every record as it was; merging with
    renumbering from [s] gives the same records in the same order, the one
    at place [i] with number [s + i] and all its other keys as they were. *)
Lemma merge_existing_concatenates :
  forall (JD : JsonDecoder) (text payload : str) (old new_list : list pyval)
         (s : Z),
    wrapped_payload text = Some payload ->
    json_loads payload = Some (PyList old) ->
    merge_existing (Some text) new_list false s = Ok (old ++ new_list)
    /\ (Forall is_record (old ++ new_list) ->
        exists merged,
          merge_existing (Some text) new_list true s = Ok merged
          /\ length merged = length (old ++ new_list)
          /\ forall i d,
               nth_error (old ++ new_list) i = Some (PyDict d) ->
               exists d',
                 nth_error merged i = Some (PyDict d')
                 /\ dict_get (u "number") d' = Some (PyInt (s + Z.of_nat i))
                 /\ forall k, k <> u "number" -> dict_get k d' = dict_get k d).
Proof.
  intros JD text payload old new_list s Hp Hl. split.
  - apply (merge_existing_loaded text payload old new_list false s Hp Hl).
  - intros Hrec. exists (renumbered s (old ++ new_list)). split.
    + rewrite (merge_existing_loaded text payload old new_list true s Hp Hl).
      apply renumber_records. exact Hrec.
    + split; [apply renumbered_length|].
      intros i d Hi.
      exists (dict_set (u "number") (PyInt (s + Z.of_nat i)) d).
      split; [apply (renumbered_nth _ s i _ Hi)|].
      split; [apply dict_get_set_same|].
      intros k Hk. apply dict_get_set_other. exact Hk.
Qed.

Example merge_existing_concatenates_example :
  @merge_existing Json.Decoder
    (Some (write_js [PyDict [(u "number", PyInt 7);
                             (u "question", PyStr (u "old"))]]))
    [PyDict [(u "question", PyStr (u "new")); (u "number", PyInt 1)]]
    false 3
  = Ok [PyDict [(u "number", PyInt 7); (u "question", PyStr (u "old"))];
        PyDict [(u "question", PyStr (u "new")); (u "number", PyInt 1)]]
  /\ @merge_existing Json.Decoder
       (Some (write_js [PyDict [(u "number", PyInt 7);
                                (u "question", PyStr (u "old"))]]))
       [PyDict [(u "question", PyStr (u "new")); (u "number", PyInt 1)]]
       true 3
     = Ok [PyDict [(u "number", PyInt 3); (u "question", PyStr (u "old"))];
           PyDict [(u "question", PyStr (u "new")); (u "number", PyInt 4)]].
Proof. split; vm_compute; reflexivity. Qed.

Lemma ok_not_prefixed :
  forall (A : Type) (old l : list A),
    length old = 1%nat -> Ok l <> Ok (old ++ l).
Proof.
  intros A old l Hlen H. injection H as H.
  apply (f_equal (@length A)) in H. rewrite length_app, Hlen in H. lia.
Qed.

(** C4: the merge loses the records of an existing output file whose
    array has a closing bracket followed by a semicolon inside a string.
    The file written for the question about [a[3];] holds one record (its
    array decodes to it), yet the pattern of line 222 cuts the array at
    that bracket, the cut array does not decode, and the merge gives the
    new list alone (renumbered alone when asked for), not the old record
    followed by the new list. *)
Theorem merge_existing_drops_old_records :
  length array_question_records = 1%nat
  /\ Json.loads (json_dumps (PyList array_question_records))
     = Some (PyList array_question_records)
  /\ (exists payload,
        wrapped_payload array_question_file = Some payload
        /\ payload <> json_dumps (PyList array_question_records)
        /\ Json.loads payload = None)
  /\ (forall new_list r s,
        @merge_existing Json.Decoder (Some array_question_file) new_list r s
        = if r then renumber s new_list else Ok new_list)
  /\ (forall new_list s,
        @merge_existing Json.Decoder (Some array_question_file) new_list
          false s
        <> Ok (array_question_records ++ new_list)).
Proof.
  assert (Hlen : length array_question_records = 1%nat)
    by (vm_compute; reflexivity).
  assert (Hcut : exists payload,
             wrapped_payload array_question_file = Some payload
             /\ payload <> json_dumps (PyList array_question_records)
             /\ Json.loads payload = None).
  { eexists. split; [vm_compute; reflexivity|]. split.
    - apply (proj1 (str_eqb_neq _ _)). vm_compute. reflexivity.
    - vm_compute. reflexivity. }
  assert (Hmerge : forall new_list r s,
             @merge_existing Json.Decoder (Some array_question_file)
               new_list r s
             = if r then renumber s new_list else Ok new_list).
  { intros new_list r s. destruct Hcut as [payload [Hp [_ Hl]]].
    apply (@merge_existing_bad_payload Json.Decoder _ payload _ _ _ Hp Hl). }
  split; [exact Hlen|]. split; [vm_compute; reflexivity|].
  split; [exact Hcut|]. split; [exact Hmerge|].
  intros new_list s H.
  pose proof (Hmerge new_list false s) as E. cbv iota in E.
  rewrite E in H. exact (ok_not_prefixed _ _ _ Hlen H).
Qed.

(** C9: when there is no file at the append target, the merge gives back
    the new list as it is, whatever the renumbering flag and the start
    value: a record numbered 7 keeps its number when renumbering from 1 is
    asked for. *)
Theorem merge_existing_missing_file :
  (forall (JD : JsonDecoder) (new_list : list pyval) (r : bool) (s : Z),
      merge_existing None new_list r s = Ok new_list)
  /\ @merge_existing Json.Decoder None [PyDict [(u "number", PyInt 7)]] true 1
     = Ok [PyDict [(u "number", PyInt 7)]].
Proof. split; [intros; reflexivity|reflexivity]. Qed.

(* ================================================================== *)
(** * Properties of the record finaliser *)
(* ================================================================== *)

Lemma default_options_finalized :
  forall UD : UnicodeData, finalized_options default_options = default_options.
Proof.
  intros UD. rewrite <- clean_options_finalized. unfold default_options.
  change (u "A") with [65%N]. change (u "B") with [66%N].
  unfold clean_options. simpl label. simpl text.
  rewrite !upper_ascii_letter by lia.
  vm_compute. reflexivity.
Qed.

Lemma finalized_options_nonempty :
  forall (UD : UnicodeData) opts,
    Forall (fun o => label o <> [] /\ text o <> []) (finalized_options opts).
Proof.
  intros UD opts. apply Forall_forall. intros o Ho.
  unfold finalized_options in Ho. apply keep_first_incl in Ho.
  apply in_map_iff in Ho. destruct Ho as [o0 [<- Hin]].
  apply filter_In in Hin. destruct Hin as [_ Hk].
  unfold option_kept in Hk. apply andb_true_iff in Hk.
  destruct Hk as [Hl Ht]. simpl. split.
  - intros H. apply (proj1 (upper_nil_iff _)) in H. rewrite H in Hl.
    discriminate Hl.
  - apply str_truthy_true. exact Ht.
Qed.

(** C6: the options [flush_current] leaves in a record are the options
    it starts from (the record's own, or the two defaults of a true-false
    record without options) without those whose label or cleaned text is
    empty, with upper-case labels and cleaned texts, the first of every
    label in the order of first appearance: no label occurs twice, no label
    and no text is empty, the label of every option that was not dropped
    is there.  Options labelled B, B, A finalise to B, A. *)
Theorem finalized_options_deduplicated :
  forall (UD : UnicodeData) (q_list : list dict) (buf : dict),
    dict_truthy buf = true ->
    options (snd (flush_current q_list buf))
    = Some (finalized_options (options_to_clean buf))
    /\ finalized_options (options_to_clean buf)
       = keep_first label
           (map normalize_option (filter option_kept (options_to_clean buf)))
    /\ NoDup (map label (finalized_options (options_to_clean buf)))
    /\ Forall (fun o => label o <> [] /\ text o <> [])
         (finalized_options (options_to_clean buf))
    /\ (forall o, In o (options_to_clean buf) -> option_kept o = true ->
          In (upper (label o))
             (map label (finalized_options (options_to_clean buf))))
    /\ @finalized_options AsciiTables
         [OptItem (u "B") (u "first"); OptItem (u "B") (u "second");
          OptItem (u "A") (u "third")]
       = [OptItem (u "B") (u "first"); OptItem (u "A") (u "third")].
Proof.
  intros UD q_list buf Ht.
  split; [rewrite (flush_current_truthy q_list buf Ht); reflexivity|].
  split; [reflexivity|].
  split; [apply keep_first_NoDup|].
  split; [apply finalized_options_nonempty|].
  split; [|vm_compute; reflexivity].
  intros o Hin Hk. unfold finalized_options.
  apply (keep_first_complete opt_item label _ (normalize_option o)).
  apply in_map. apply filter_In. split; assumption.
Qed.

Lemma finalized_options_deduplicated_witness :
  options
    (snd (@flush_current AsciiTables []
            (Dict (Some [OptItem (u "B") (u "first");
                         OptItem (u "b") (u "second");
                         OptItem (u "A") (u "third")])
                  (Some (AList [])) (Some (u "单选")) (Some (u "q"))
                  (Some 1))))
  = Some [OptItem (u "B") (u "first"); OptItem (u "A") (u "third")].
Proof.
  apply (proj1 (finalized_options_deduplicated AsciiTables []
                  (Dict (Some [OptItem (u "B") (u "first");
                               OptItem (u "b") (u "second");
                               OptItem (u "A") (u "third")])
                        (Some (AList [])) (Some (u "单选")) (Some (u "q"))
                        (Some 1))
                  eq_refl)).
Defined.

(** C7: a true-false record that comes to [flush_current] without options
    leaves it with exactly the two default options, A for the true text and
    B for the false text, in that order; so does the record that is
    appended to the output. *)
Theorem judge_default_options :
  forall (UD : UnicodeData) (q_list : list dict) (buf : dict),
    qtype buf = Some (u "判断") ->
    list_truthy (options buf) = false ->
    options (snd (flush_current q_list buf))
    = Some [OptItem (u "A") (u "正确"); OptItem (u "B") (u "错误")]
    /\ (fst (flush_current q_list buf) = q_list
        \/ exists r,
             fst (flush_current q_list buf) = q_list ++ [r]
             /\ options r
                = Some [OptItem (u "A") (u "正确"); OptItem (u "B") (u "错误")]).
Proof.
  intros UD q_list buf Hty Hopts.
  assert (Ht : dict_truthy buf = true).
  { unfold dict_truthy. rewrite Hty. simpl. rewrite !orb_true_r.
    reflexivity. }
  assert (Hfin : options (finalized buf)
                 = Some [OptItem (u "A") (u "正确");
                         OptItem (u "B") (u "错误")]).
  { assert (Eo : options_to_clean buf = default_options)
      by (unfold options_to_clean; rewrite Hty, Hopts; reflexivity).
    unfold finalized. cbn [options].
    rewrite Eo, default_options_finalized. reflexivity. }
  rewrite (flush_current_truthy q_list buf Ht). simpl.
  split; [exact Hfin|].
  destruct (str_truthy (clean (get_or (question buf) []))).
  - right. exists (finalized buf). split; [reflexivity|exact Hfin].
  - left. reflexivity.
Qed.

Lemma judge_default_options_witness :
  options
    (snd (@flush_current AsciiTables []
            (Dict (Some []) (Some (AList [u "A"])) (Some (u "判断"))
                  (Some (u "天空是蓝色的")) (Some 2))))
  = Some [OptItem (u "A") (u "正确"); OptItem (u "B") (u "错误")].
Proof.
  apply (proj1 (judge_default_options AsciiTables []
                  (Dict (Some []) (Some (AList [u "A"])) (Some (u "判断"))
                        (Some (u "天空是蓝色的")) (Some 2))
                  eq_refl eq_refl)).
Defined.

(* ================================================================== *)
(** * Properties of the parser *)
(* ================================================================== *)

(** C3: every record [parse_docx] gives has question text, not empty even
    after cleaning; and a record whose cleaned question text is empty
    leaves the output list as it was when it is flushed. *)
Theorem emitted_records_have_question :
  forall (UD : UnicodeData),
    (forall paragraphs s respect qs,
        parse_docx paragraphs s respect = Ok qs ->
        Forall (fun r => exists q, question r = Some q /\ q <> []
                                   /\ clean q <> []) qs)
    /\ (forall q_list buf,
          clean (get_or (question buf) []) = [] ->
          fst (flush_current q_list buf) = q_list).
Proof.
  intros UD. split.
  - intros paragraphs s respect qs H. unfold parse_docx in H.
    destruct (run respect (PState [] empty_dict s)
                (map paragraph_line paragraphs ++ [[]])) as [st|e] eqn:E;
      simpl in H; [|discriminate H].
    injection H as <-.
    apply flush_current_keeps_questions.
    apply (run_keeps_questions respect _ (PState [] empty_dict s) st
             (Forall_nil _) E).
  - intros q_list buf H.
    destruct (flush_current_list q_list buf) as [E|[_ [Ht Hq]]]; [exact E|].
    exfalso. destruct Hq as [q [Eq [_ Hc]]]. simpl in Eq.
    rewrite Eq in H. simpl in H. contradiction.
Qed.

Lemma emitted_records_have_question_witness :
  Forall (fun r => exists q, question r = Some q /\ q <> [] /\ clean q <> [])
    [Dict (Some [OptItem (u "A") (u "foo"); OptItem (u "B") (u "bar")])
          (Some (AList [u "B"])) (Some (u "单选")) (Some (u "Pick one"))
          (Some 2)].
Proof.
  apply (proj1 (emitted_records_have_question AsciiTables)
           [u "1."; u "2. (单选) Pick one"; u "A. foo"; u "B. bar";
            u "答案: B"] 1 false).
  vm_compute. reflexivity.
Defined.

(** C5: without declared numbering and with start value [s], the record
    opened by the k-th question-start line has number [s + k - 1], and it
    keeps it up to the next question start, where it is flushed with it.
    With start value 5, three questions get 5, 6 and 7. *)
Theorem auto_numbering :
  forall (UD : UnicodeData) (s : Z) (pre : list str) (raw : str)
         (mid : list str) (st : pstate),
    is_q_start raw = true ->
    forallb (fun l => negb (is_q_start l)) mid = true ->
    run false (initial s) (pre ++ raw :: mid) = Ok st ->
    let k := S (count_starts pre) in
    number (cur st) = Some (s + Z.of_nat k - 1)
    /\ number (finalized (cur st)) = Some (s + Z.of_nat k - 1)
    /\ auto_num st = s + Z.of_nat k
    /\ option_map (map number)
         (match @parse_docx AsciiTables
                  [u "1. 第一题"; u "A. 甲"; u "8、第二题"; u "";
                   u "3) 第三题"; u "答案：A"] 5 false with
          | Ok qs => Some qs
          | Raise _ => None
          end)
       = Some [Some 5; Some 6; Some 7].
Proof.
  intros UD s pre raw mid st Hs Hmid Hrun k.
  rewrite run_app in Hrun.
  destruct (run false (initial s) pre) as [st0|e] eqn:E0; simpl in Hrun;
    [|discriminate Hrun].
  destruct (step false st0 raw) as [st1|e] eqn:E1; simpl in Hrun;
    [|discriminate Hrun].
  destruct (step_start false st0 raw st1 Hs E1)
    as [c [m [n [_ [_ [-> [Hn _]]]]]]].
  destruct (run_keeps_number false mid _ st Hmid Hrun) as [En _].
  simpl in En.
  pose proof (run_auto_num pre (initial s) st0 E0) as Ea. simpl in Ea.
  pose proof (run_auto_num mid _ st Hrun) as Eb. simpl in Eb.
  assert (Hnone : count_starts mid = 0%nat).
  { clear -Hmid. unfold count_starts.
    induction mid as [|l mid IH]; simpl in *; [reflexivity|].
    apply andb_true_iff in Hmid. destruct Hmid as [Hl Hmid].
    apply negb_true_iff in Hl. rewrite Hl. apply IH. exact Hmid. }
  assert (Hnum : number (cur st) = Some (s + Z.of_nat k - 1)).
  { rewrite En, Hn, Ea. f_equal. unfold k. lia. }
  split; [exact Hnum|]. split; [exact Hnum|].
  split; [rewrite Eb, Hnone, Ea; unfold k; lia|].
  vm_compute. reflexivity.
Qed.

Lemma auto_numbering_witness :
  exists st,
    @run AsciiTables false (initial 5)
      ([u "1. 第一题"; u "8、第二题"] ++ u "3) 第三题" :: [u "答案：A"])
    = Ok st
    /\ number (cur st) = Some 7.
Proof.
  eexists. split; [vm_compute; reflexivity|].
  apply (proj1 (auto_numbering AsciiTables 5 [u "1. 第一题"; u "8、第二题"]
                  (u "3) 第三题") [u "答案：A"] _
                  ltac:(vm_compute; reflexivity)
                  ltac:(vm_compute; reflexivity)
                  ltac:(vm_compute; reflexivity))).
Defined.

(** An answer line under an open record, followed by lines that are neither
    question starts nor answer lines: the loop gets through them and the
    open record holds the normalised answer of that line. *)
Lemma run_answer_line :
  forall (UD : UnicodeData) respect st raw post ans,
    dict_truthy (cur st) = true ->
    is_answer_line raw = true ->
    forallb (fun l => negb (is_q_start l) && negb (is_answer_line l)) post
    = true ->
    normalize_answers (answer_text raw) (get_or (qtype (cur st)) (u "单选"))
    = Ok ans ->
    exists st', run respect st (raw :: post) = Ok st'
                /\ answer (cur st') = Some (AList ans)
                /\ answer (finalized (cur st')) = Some (AList ans).
Proof.
  intros UD respect st raw post ans Ht Ha Hpost Hn. simpl.
  rewrite (step_answer respect st raw Ht Ha), Hn. simpl.
  destruct (run_keeps_answer respect post
              (PState (questions st) (set_answer (cur st) (AList ans))
                 (auto_num st))) as [st' [Hrun [Ea _]]].
  - simpl. unfold dict_truthy. simpl. rewrite orb_true_r. reflexivity.
  - exact Hpost.
  - exists st'. split; [exact Hrun|]. simpl in Ea.
    split; [exact Ea|].
    unfold finalized, finalized_answer. simpl. rewrite Ea. reflexivity.
Qed.

(** C8: when a record is open and an answer line comes, whatever lines
    (answer lines among them) came before, and no further answer line comes
    before the next question start, the answer of the record is the
    normalisation of that last answer line for the type the record has at
    that line; this is the answer the record is flushed with. *)
Theorem last_answer_wins :
  forall (UD : UnicodeData) (respect : bool) (st0 : pstate)
         (before : list str) (st : pstate) (raw : str) (post : list str)
         (ans : list str),
    run respect st0 before = Ok st ->
    dict_truthy (cur st) = true ->
    is_answer_line raw = true ->
    forallb (fun l => negb (is_q_start l) && negb (is_answer_line l)) post
    = true ->
    normalize_answers (answer_text raw) (get_or (qtype (cur st)) (u "单选"))
    = Ok ans ->
    exists st',
      run respect st0 (before ++ raw :: post) = Ok st'
      /\ answer (cur st') = Some (AList ans)
      /\ answer (finalized (cur st')) = Some (AList ans).
Proof.
  intros UD respect st0 before st raw post ans Hb Ht Ha Hpost Hn.
  destruct (run_answer_line UD respect st raw post ans Ht Ha Hpost Hn)
    as [st' [Hrun H]].
  exists st'. split; [|exact H].
  rewrite run_app, Hb. exact Hrun.
Qed.

Lemma last_answer_wins_witness :
  exists st',
    @run AsciiTables false (initial 1)
      ([u "1.（多选）哪些是质数"; u "答案：A"; u "A. 2"; u "答案：D"]
         ++ u "答案：B、C" :: [u ""; u "B. 3"])
    = Ok st'
    /\ answer (cur st') = Some (AList [u "B"; u "C"])
    /\ answer (@finalized AsciiTables (cur st'))
       = Some (AList [u "B"; u "C"]).
Proof.
  apply (last_answer_wins AsciiTables false (initial 1)
           [u "1.（多选）哪些是质数"; u "答案：A"; u "A. 2"; u "答案：D"]
           (PState []
              (Dict (Some [OptItem (u "A") (u "2")]) (Some (AList [u "D"]))
                 (Some (u "多选")) (Some (u "哪些是质数")) (Some 1)) 2)
           (u "答案：B、C") [u ""; u "B. 3"] [u "B"; u "C"]);
    vm_compute; reflexivity.
Defined.

(** C10: the answer of a record is never checked against its options.  For
    a record that is not true-false, the answer it is flushed with is the
    leading-letter extraction of the answer text of its last answer line
    (the first character of each token when it is a capital letter, in
    upper case, each letter once), whatever its options are;
    [flush_current] leaves a list of labels as it finds it; and there is a
    document whose only record has the answer C with the options A and
    B. *)
Theorem answers_not_validated_against_options :
  (forall (UD : UnicodeData) (respect : bool) (st : pstate) (raw : str)
          (post : list str),
      dict_truthy (cur st) = true ->
      get_or (qtype (cur st)) (u "单选") <> u "判断" ->
      is_answer_line raw = true ->
      forallb (fun l => negb (is_q_start l) && negb (is_answer_line l)) post
      = true ->
      exists st',
        run respect st (raw :: post) = Ok st'
        /\ answer (finalized (cur st'))
           = Some (AList (extracted_labels (answer_text raw))))
  /\ (forall (UD : UnicodeData) (q_list : list dict) (buf : dict)
             (l : list str),
        answer buf = Some (AList l) ->
        answer (snd (flush_current q_list buf)) = Some (AList l))
  /\ (exists r opts,
        @parse_docx AsciiTables
          [u "1. 选一个"; u "A. 甲"; u "B. 乙"; u "答案：C"] 1 false
        = Ok [r]
        /\ answer r = Some (AList [u "C"])
        /\ options r = Some opts
        /\ map label opts = [u "A"; u "B"]
        /\ ~ In (u "C") (map label opts)).
Proof.
  split; [|split].
  - intros UD respect st raw post Ht Hty Ha Hpost.
    destruct (run_answer_line UD respect st raw post _ Ht Ha Hpost
                (normalize_answers_extracted _ _ Hty)) as [st' [Hrun [_ H]]].
    exists st'. split; assumption.
  - intros UD q_list buf l H.
    assert (Ht : dict_truthy buf = true).
    { unfold dict_truthy. rewrite H. simpl. rewrite orb_true_r.
      reflexivity. }
    rewrite (flush_current_truthy q_list buf Ht). simpl.
    unfold finalized_answer. rewrite H. reflexivity.
  - eexists. eexists. split; [vm_compute; reflexivity|].
    split; [reflexivity|]. split; [reflexivity|]. split; [reflexivity|].
    simpl. intros [H|[H|[]]]; discriminate H.
Qed.

Lemma answers_not_validated_against_options_witness :
  exists st',
    @run AsciiTables false
      (PState []
         (Dict (Some [OptItem (u "A") (u "甲")]) (Some (AList []))
            (Some (u "单选")) (Some (u "选一个")) (Some 1)) 2)
      (u "答案：cd, 3x；Cb+ab" :: [u "B. 乙"])
    = Ok st'
    /\ answer (@finalized AsciiTables (cur st'))
       = Some (AList [u "C"; u "A"]).
Proof.
  apply (proj1 answers_not_validated_against_options AsciiTables false
           (PState []
              (Dict (Some [OptItem (u "A") (u "甲")]) (Some (AList []))
                 (Some (u "单选")) (Some (u "选一个")) (Some 1)) 2)
           (u "答案：cd, 3x；Cb+ab") [u "B. 乙"]).
  - vm_compute. reflexivity.
  - vm_compute. intros H. discriminate H.
  - vm_compute. reflexivity.
  - vm_compute. reflexivity.
Defined.

(* ================================================================== *)
(** * Further properties *)
(* ================================================================== *)

(** ** The cleaning of a text *)
Lemma sub_runs_single_spaced :
  forall s b, single_spaced b (sub_runs is_space [32%N] b s).
Proof.
  induction s as [|c s IH]; intros b; simpl; [exact I|].
  destruct (is_space c) eqn:Ec.
  - destruct b; simpl.
    + apply IH.
    + right. split; [reflexivity|]. split; [reflexivity|apply IH].
  - simpl. left. split; [exact Ec|apply IH].
Qed.

Lemma single_spaced_fixed :
  forall t b, single_spaced b t -> sub_runs is_space [32%N] b t = t.
Proof.
  induction t as [|c t IH]; intros b H; simpl; [reflexivity|].
  simpl in H. destruct H as [[Hc Ht]|[Hc [Hb Ht]]].
  - rewrite Hc. f_equal. apply IH. exact Ht.
  - subst c b. simpl. f_equal. apply IH. exact Ht.
Qed.

Lemma single_spaced_weaken :
  forall t b, single_spaced true t -> single_spaced b t.
Proof.
  intros [|c t] b H; simpl in *; [exact I|].
  destruct H as [H|[_ [H _]]]; [left; exact H|discriminate H].
Qed.

Lemma single_spaced_lstrip :
  forall t b, single_spaced b t -> single_spaced true (lstrip t).
Proof.
  induction t as [|c t IH]; intros b H; simpl; [exact I|].
  simpl in H. destruct H as [[Hc Ht]|[Hc [Hb Ht]]].
  - rewrite Hc. simpl. left. split; assumption.
  - subst c. simpl. apply (IH true). exact Ht.
Qed.

Lemma single_spaced_prefix :
  forall t w b, single_spaced b (t ++ w) -> single_spaced b t.
Proof.
  induction t as [|c t IH]; intros w b H; simpl in *; [exact I|].
  destruct H as [[Hc Ht]|[Hc [Hb Ht]]].
  - left. split; [exact Hc|]. apply (IH w). exact Ht.
  - right. split; [exact Hc|]. split; [exact Hb|]. apply (IH w). exact Ht.
Qed.

Lemma lstrip_fixed :
  forall t, single_spaced true t -> lstrip t = t.
Proof.
  intros [|c t] H; simpl in *; [reflexivity|].
  destruct H as [[Hc _]|[_ [H _]]]; [rewrite Hc; reflexivity|discriminate H].
Qed.

Lemma rstrip_snoc :
  forall t c,
    rstrip (t ++ [c]) = if is_space c then rstrip t else t ++ [c].
Proof.
  intros t c. unfold rstrip. rewrite rev_app_distr. simpl.
  destruct (is_space c); [reflexivity|].
  simpl. rewrite rev_involutive. reflexivity.
Qed.

(** [rstrip] cuts a tail of white space off, and what is left does not end
    with white space. *)
Lemma rstrip_spec :
  forall t, exists w,
    t = rstrip t ++ w /\ forallb is_space w = true
    /\ rstrip (rstrip t) = rstrip t.
Proof.
  induction t as [|c t IH] using rev_ind.
  - exists []. repeat split.
  - rewrite rstrip_snoc. destruct (is_space c) eqn:Ec.
    + destruct IH as [w [E [Hw Hr]]]. exists (w ++ [c]). split.
      * rewrite app_assoc, <- E. reflexivity.
      * split; [|exact Hr]. rewrite forallb_app, Hw. simpl.
        rewrite Ec. reflexivity.
    + exists []. split; [rewrite app_nil_r; reflexivity|].
      split; [reflexivity|]. rewrite rstrip_snoc, Ec. reflexivity.
Qed.

Lemma single_spaced_strip :
  forall t b, single_spaced b t -> single_spaced true (strip t).
Proof.
  intros t b H. unfold strip.
  destruct (rstrip_spec (lstrip t)) as [w [E _]].
  apply (single_spaced_prefix _ w). rewrite <- E.
  apply (single_spaced_lstrip t b H).
Qed.

Lemma clean_single_spaced : forall s, single_spaced true (clean s).
Proof.
  intros s. unfold clean. apply (single_spaced_strip _ false).
  apply sub_runs_single_spaced.
Qed.

Lemma strip_fixed :
  forall t, single_spaced true (strip t) -> strip (strip t) = strip t.
Proof.
  intros t H. unfold strip at 1. rewrite (lstrip_fixed _ H).
  unfold strip. destruct (rstrip_spec (lstrip t)) as [_ [_ [_ E]]]. exact E.
Qed.

Lemma clean_idempotent : forall s, clean (clean s) = clean s.
Proof.
  intros s. pose proof (clean_single_spaced s) as H.
  unfold clean at 1.
  rewrite (single_spaced_fixed _ false (single_spaced_weaken _ false H)).
  unfold clean in *. apply strip_fixed. exact H.
Qed.

Lemma lstrip_keeps :
  forall t c, In c t -> is_space c = false -> In c (lstrip t).
Proof.
  induction t as [|x t IH]; intros c Hin Hc; simpl in *; [contradiction|].
  destruct (is_space x) eqn:Ex; [|exact Hin].
  destruct Hin as [->|Hin]; [congruence|]. apply IH; assumption.
Qed.

Lemma strip_keeps :
  forall t c, In c t -> is_space c = false -> In c (strip t).
Proof.
  intros t c Hin Hc. unfold strip, rstrip. apply in_rev.
  rewrite rev_involutive. apply lstrip_keeps; [|exact Hc].
  apply -> in_rev. apply lstrip_keeps; assumption.
Qed.

Lemma sub_runs_keeps :
  forall s b c, In c s -> is_space c = false ->
                In c (sub_runs is_space [32%N] b s).
Proof.
  induction s as [|x s IH]; intros b c Hin Hc; simpl in *; [contradiction|].
  destruct Hin as [->|Hin].
  - rewrite Hc. left. reflexivity.
  - destruct (is_space x); [apply in_or_app; right|right]; apply IH;
      assumption.
Qed.

Lemma lstrip_spaces :
  forall t, forallb is_space t = true -> lstrip t = [].
Proof.
  induction t as [|x t IH]; simpl; intros H; [reflexivity|].
  apply andb_true_iff in H. destruct H as [Hx Ht]. rewrite Hx. apply IH.
  exact Ht.
Qed.

Lemma sub_runs_spaces :
  forall s b, forallb is_space s = true ->
              forallb is_space (sub_runs is_space [32%N] b s) = true.
Proof.
  induction s as [|x s IH]; intros b H; simpl in *; [reflexivity|].
  apply andb_true_iff in H. destruct H as [Hx Hs]. rewrite Hx.
  rewrite forallb_app, (IH true Hs). destruct b; reflexivity.
Qed.

Lemma clean_nil_iff :
  forall s, clean s = [] <-> forallb is_space s = true.
Proof.
  intros s. split.
  - intros H. destruct (forallb is_space s) eqn:E; [reflexivity|].
    exfalso.
    assert (Hex : exists c, In c s /\ is_space c = false).
    { clear H. induction s as [|x s IH]; simpl in E; [discriminate E|].
      destruct (is_space x) eqn:Ex.
      - destruct (IH E) as [c [Hin Hc]]. exists c. split; [right|]; assumption.
      - exists x. split; [left; reflexivity|exact Ex]. }
    destruct Hex as [c [Hin Hc]].
    assert (Hc' : In c (clean s)).
    { unfold clean. apply strip_keeps; [|exact Hc].
      apply sub_runs_keeps; assumption. }
    rewrite H in Hc'. contradiction.
  - intros H. unfold clean, strip.
    rewrite (lstrip_spaces _ (sub_runs_spaces s false H)). reflexivity.
Qed.

Lemma single_spaced_space :
  forall t b c, single_spaced b t -> In c t -> is_space c = true -> c = 32%N.
Proof.
  induction t as [|x t IH]; intros b c H Hin Hc; simpl in *; [contradiction|].
  destruct H as [[Hx Ht]|[Hx [_ Ht]]]; destruct Hin as [->|Hin];
    try congruence; eapply IH; eassumption.
Qed.

Lemma single_spaced_adjacent :
  forall l1 b x y l2,
    single_spaced b (l1 ++ x :: y :: l2) ->
    is_space x = true -> is_space y = false.
Proof.
  induction l1 as [|c l1 IH]; intros b x y l2 H Hx; simpl in H.
  - destruct H as [[Hc _]|[_ [_ Ht]]]; [congruence|].
    destruct Ht as [[Hy _]|[_ [Hf _]]]; [exact Hy|discriminate Hf].
  - destruct H as [[_ Ht]|[_ [_ Ht]]]; eapply IH; eassumption.
Qed.

(** X1: [clean] gives a normal form: cleaning twice is cleaning once; the
    result neither starts nor ends with white space, its only white-space
    character is the ordinary space, and no two of them are adjacent. *)
Theorem clean_normal_form :
  forall s : str,
    clean (clean s) = clean s
    /\ lstrip (clean s) = clean s
    /\ rstrip (clean s) = clean s
    /\ (forall c, In c (clean s) -> is_space c = true -> c = 32%N)
    /\ (forall l1 x y l2,
          clean s = l1 ++ x :: y :: l2 -> is_space x = true ->
          is_space y = false).
Proof.
  intros s. pose proof (clean_single_spaced s) as H.
  split; [apply clean_idempotent|].
  split; [apply lstrip_fixed; exact H|].
  split.
  - unfold clean, strip.
    destruct (rstrip_spec (lstrip (sub_runs is_space [32%N] false s)))
      as [_ [_ [_ E]]]. exact E.
  - split.
    + intros c. apply (single_spaced_space _ true c H).
    + intros l1 x y l2 E. rewrite E in H.
      apply (single_spaced_adjacent l1 true x y l2 H).
Qed.

(** X2: [flush_current] drops an open record exactly when its question
    text is absent or made of white space only; a record whose question
    has any other character is appended to the list. *)
Theorem flush_current_keeps_iff_question :
  forall (UD : UnicodeData) (q_list : list dict) (buf : dict),
    dict_truthy buf = true ->
    (forallb is_space (get_or (question buf) []) = true ->
     fst (flush_current q_list buf) = q_list)
    /\ (forallb is_space (get_or (question buf) []) = false ->
        fst (flush_current q_list buf) = q_list ++ [finalized buf]).
Proof.
  intros UD q_list buf Ht. rewrite (flush_current_truthy q_list buf Ht).
  simpl. split; intros H.
  - apply clean_nil_iff in H. rewrite H. reflexivity.
  - destruct (str_truthy (clean (get_or (question buf) []))) eqn:E;
      [reflexivity|].
    apply str_truthy_false in E. apply clean_nil_iff in E. congruence.
Qed.

Lemma flush_current_keeps_iff_question_witness :
  fst (@flush_current AsciiTables []
         (Dict (Some []) (Some (AList [])) (Some (u "单选"))
            (Some (u "  　 ")) (Some 1)))
  = [].
Proof.
  apply (proj1 (flush_current_keeps_iff_question AsciiTables []
                  (Dict (Some []) (Some (AList [])) (Some (u "单选"))
                     (Some (u "  　 ")) (Some 1)) eq_refl)).
  vm_compute. reflexivity.
Defined.

(** ** The answer normaliser *)

Section MoreNormaliser.
Context {UD : UnicodeData}.

Lemma leading_letter_label :
  forall p l, leading_letter p = Some l -> is_label l.
Proof.
  intros p l. unfold leading_letter, re_match. simpl.
  destruct p as [|c p]; simpl; [discriminate|].
  destruct (is_upper_AZ c) eqn:Ec; simpl; [|discriminate].
  intros H. injection H as <-. exists c. split; [reflexivity|exact Ec].
Qed.

Lemma leading_letters_labels :
  forall parts, Forall is_label (leading_letters parts).
Proof.
  induction parts as [|p parts IH]; simpl; [constructor|].
  destruct (leading_letter p) as [l|] eqn:E; simpl; [|exact IH].
  constructor; [|exact IH]. apply (leading_letter_label p l E).
Qed.

Lemma normalize_answers_labels :
  forall ans_text q_type l,
    normalize_answers ans_text q_type = Ok l ->
    NoDup l /\ Forall is_label l
    /\ (q_type = u "判断" -> l = [] \/ l = [u "A"] \/ l = [u "B"]).
Proof.
  intros ans_text q_type l H.
  destruct (str_eqb q_type (u "判断")) eqn:Et.
  - apply str_eqb_eq in Et. subst q_type.
    assert (Hl : l = [] \/ l = [u "A"] \/ l = [u "B"]).
    { unfold normalize_answers in H. rewrite str_eqb_refl in H.
      destruct (answer_parts ans_text) as [|token rest]; [discriminate H|].
      destruct (str_in token TRUE_SET || str_in (upper token) TRUE_SET)%bool;
        [injection H as <-; right; left; reflexivity|].
      destruct (str_in token FALSE_SET || str_in (upper token) FALSE_SET)%bool;
        [injection H as <-; right; right; reflexivity|].
      destruct (str_in token [u "A"; u "B"]) eqn:Eab;
        [|injection H as <-; left; reflexivity].
      injection H as <-. unfold str_in in Eab. simpl in Eab.
      rewrite orb_false_r in Eab. apply orb_true_iff in Eab.
      destruct Eab as [E|E]; apply str_eqb_eq in E; rewrite E;
        [right; left|right; right]; reflexivity. }
    split; [|split; [|intros _; exact Hl]].
    + destruct Hl as [ -> | [ -> | -> ] ]; repeat constructor; simpl; tauto.
    + destruct Hl as [ -> | [ -> | -> ] ]; repeat constructor;
        eexists; split; reflexivity.
  - apply str_eqb_neq in Et.
    rewrite (normalize_answers_choice ans_text q_type Et) in H.
    injection H as <-. split; [|split; [|contradiction]].
    + rewrite <- (map_id (keep_first _ _)). apply keep_first_NoDup.
    + apply Forall_forall. intros x Hx. apply keep_first_incl in Hx.
      revert x Hx. apply Forall_forall. apply leading_letters_labels.
Qed.

Lemma normalize_answers_raises_iff :
  forall ans_text q_type e,
    normalize_answers ans_text q_type = Raise e
    <-> (q_type = u "判断" /\ answer_parts ans_text = []
         /\ e = IndexError).
Proof.
  intros ans_text q_type e. split.
  - intros H. destruct (str_eqb q_type (u "判断")) eqn:Et.
    + apply str_eqb_eq in Et. subst q_type.
      pose proof (normalize_answers_judge ans_text) as J.
      destruct (answer_parts ans_text) as [|token rest].
      * rewrite J in H. injection H as <-. repeat split.
      * destruct J as [l [J _]]. rewrite J in H. discriminate H.
    + apply str_eqb_neq in Et.
      rewrite (normalize_answers_choice ans_text q_type Et) in H.
      discriminate H.
  - intros [Hq [Hp He]]. subst q_type e. pose proof (normalize_answers_judge ans_text) as J.
    rewrite Hp in J. exact J.
Qed.

End MoreNormaliser.

(** X3: [normalize_answers] raises in one case only, with [IndexError]:
    the type is 判断 and the answer text has no piece. *)
Theorem normalize_answers_raises_exactly :
  forall (UD : UnicodeData) (ans_text q_type : str) (e : exn),
    normalize_answers ans_text q_type = Raise e
    <-> (q_type = u "判断" /\ answer_parts ans_text = []
         /\ e = IndexError).
Proof. intros UD. apply normalize_answers_raises_iff. Qed.

Lemma normalize_answers_raises_exactly_witness :
  @normalize_answers AsciiTables (u "、") (u "判断") = Raise IndexError.
Proof.
  apply (proj2 (normalize_answers_raises_exactly AsciiTables (u "、")
                  (u "判断") IndexError)).
  split; [reflexivity|]. split; [vm_compute; reflexivity|reflexivity].
Defined.

(** X4: when [normalize_answers] returns, it returns pairwise distinct
    labels, each one capital letter from A to Z; for the type 判断 the
    list is empty, [A] or [B]. *)
Theorem normalize_answers_canonical :
  forall (UD : UnicodeData) (ans_text q_type : str) (l : list str),
    normalize_answers ans_text q_type = Ok l ->
    NoDup l
    /\ Forall (fun x => exists c, x = [c] /\ is_upper_AZ c = true) l
    /\ (q_type = u "判断" -> l = [] \/ l = [u "A"] \/ l = [u "B"]).
Proof. intros UD. apply normalize_answers_labels. Qed.

Lemma normalize_answers_canonical_witness :
  NoDup [u "A"; u "C"; u "D"]
  /\ Forall (fun x => exists c, x = [c] /\ is_upper_AZ c = true)
       [u "A"; u "C"; u "D"]
  /\ (u "多选" = u "判断" ->
      [u "A"; u "C"; u "D"] = [] \/ [u "A"; u "C"; u "D"] = [u "A"]
      \/ [u "A"; u "C"; u "D"] = [u "B"]).
Proof.
  apply (normalize_answers_canonical AsciiTables (u "a、C，d+A") (u "多选")).
  vm_compute. reflexivity.
Defined.

(** ** The loop of the parser *)

Section MoreParser.
Context {UD : UnicodeData}.

Lemma empty_line_kind :
  is_q_start [] = false /\ is_answer_line [] = false.
Proof. split; reflexivity. Qed.

(** Without an open record, a line that is no question start changes
    nothing. *)
Lemma step_idle :
  forall respect st raw,
    dict_truthy (cur st) = false ->
    is_q_start raw = false ->
    step respect st raw = Ok st.
Proof.
  intros respect st raw Ht Hs. unfold is_q_start in Hs. unfold step.
  destruct (re_match RE_Q_START (strip raw)); [discriminate Hs|].
  rewrite Ht.
  destruct (re_match RE_OPT (strip raw)); destruct (re_match RE_ANS (strip raw));
    reflexivity.
Qed.

Lemma step_total :
  forall respect st raw,
    line_passes raw ->
    exists st', step respect st raw = Ok st'.
Proof.
  intros respect st raw [H Hd].
  destruct (is_q_start raw) eqn:Hs.
  - specialize (Hd eq_refl). unfold number_text in Hd.
    unfold is_q_start in Hs.
    destruct (re_match RE_Q_START (strip raw)) as [m|] eqn:Hm;
      [|discriminate Hs].
    destruct (step_start_returns respect st raw m _ Hm (int_returns _ Hd))
      as [c [E _]].
    eexists. exact E.
  - destruct (dict_truthy (cur st)) eqn:Ht.
    + destruct (is_answer_line raw) eqn:Ha.
      * rewrite (step_answer respect st raw Ht Ha).
        destruct (normalize_answers (answer_text raw)
                    (get_or (qtype (cur st)) (u "单选"))) as [ans|e] eqn:En.
        -- eexists. reflexivity.
        -- apply normalize_answers_raises_iff in En.
           destruct En as [_ [Hp _]]. exfalso. apply (H eq_refl). exact Hp.
      * destruct (step_keeps_answer respect st raw Ht Hs Ha) as [st' [E _]].
        exists st'. exact E.
    + exists st. apply step_idle; assumption.
Qed.

Lemma run_total :
  forall respect lines st,
    Forall line_passes lines ->
    exists st', run respect st lines = Ok st'.
Proof.
  induction lines as [|l lines IH]; intros st H; simpl.
  - exists st. reflexivity.
  - inversion H as [|? ? Hl Hls]; subst.
    destruct (step_total respect st l Hl) as [st1 E]. rewrite E. simpl.
    apply IH. exact Hls.
Qed.

Lemma run_idle :
  forall respect lines st,
    dict_truthy (cur st) = false ->
    forallb (fun l => negb (is_q_start l)) lines = true ->
    run respect st lines = Ok st.
Proof.
  induction lines as [|l lines IH]; intros st Ht H; simpl; [reflexivity|].
  simpl in H. apply andb_true_iff in H. destruct H as [Hl H].
  apply negb_true_iff in Hl.
  rewrite (step_idle respect st l Ht Hl). simpl. apply IH; assumption.
Qed.

Lemma sorted_snoc :
  forall ns x,
    StronglySorted Z.lt ns -> Forall (fun n => n < x) ns ->
    StronglySorted Z.lt (ns ++ [x]).
Proof.
  induction ns as [|n ns IH]; intros x Hs Hx; simpl.
  - constructor; constructor.
  - inversion Hs as [|? ? Hs' Hn]; subst.
    inversion Hx as [|? ? Hnx Hx']; subst.
    constructor; [apply IH; assumption|].
    apply Forall_app. split; [exact Hn|]. constructor; [exact Hnx|constructor].
Qed.

(** What a flush makes of the numbers. *)
Lemma flush_numbered :
  forall s q_list buf ns bound,
    map number q_list = map Some ns ->
    StronglySorted Z.lt ns ->
    Forall (fun n => s <= n < bound) ns ->
    Z.of_nat (length ns) <= bound - s ->
    (dict_truthy buf = true -> number buf = Some bound) ->
    exists ns',
      map number (fst (flush_current q_list buf)) = map Some ns'
      /\ StronglySorted Z.lt ns'
      /\ Forall (fun n => s <= n < bound + (if dict_truthy buf then 1 else 0))
           ns'
      /\ Z.of_nat (length ns')
         <= bound + (if dict_truthy buf then 1 else 0) - s.
Proof.
  intros s q_list buf ns bound Hm Hs Hr Hl Hb.
  destruct (flush_current_list q_list buf) as [E|[E [Ht _]]]; rewrite E.
  - exists ns. split; [exact Hm|]. split; [exact Hs|]. split.
    + eapply Forall_impl; [|exact Hr]. simpl. intros n Hn.
      destruct (dict_truthy buf); lia.
    + destruct (dict_truthy buf); lia.
  - rewrite Ht. specialize (Hb Ht). exists (ns ++ [bound]).
    split; [rewrite !map_app, Hm; simpl; rewrite Hb; reflexivity|].
    split.
    + apply sorted_snoc; [exact Hs|].
      eapply Forall_impl; [|exact Hr]. simpl. intros n Hn. lia.
    + split.
      * apply Forall_app. split.
        -- eapply Forall_impl; [|exact Hr]. simpl. intros n Hn. lia.
        -- constructor; [|constructor].
           assert (0 <= Z.of_nat (length ns)) by lia. lia.
      * rewrite length_app. simpl. lia.
Qed.

Lemma step_numbered :
  forall s st raw st',
    numbered s st -> s <= auto_num st - (if dict_truthy (cur st) then 1 else 0) ->
    step false st raw = Ok st' ->
    numbered s st'
    /\ s <= auto_num st' - (if dict_truthy (cur st') then 1 else 0).
Proof.
  intros s st raw st' [ns [Hm [Hs [Hr [Hl Hb]]]]] Hle Hstep.
  destruct (is_q_start raw) eqn:Hq.
  - destruct (step_start false st raw st' Hq Hstep)
      as [c [m [n0 [_ [_ [-> [Hn [_ [_ Ht]]]]]]]]].
    unfold numbered. simpl.
    rewrite Ht.
    destruct (flush_numbered s (questions st) (cur st) ns _ Hm Hs Hr Hl Hb)
      as [ns' [Hm' [Hs' [Hr' Hl']]]].
    split.
    + exists ns'. split; [exact Hm'|]. split; [exact Hs'|].
      split; [|split].
      * eapply Forall_impl; [|exact Hr']. simpl. intros n Hn'.
        destruct (dict_truthy (cur st)); lia.
      * destruct (dict_truthy (cur st)); lia.
      * intros _. rewrite Hn. f_equal. lia.
    + destruct (dict_truthy (cur st)); lia.
  - destruct (step_other false st raw st' Hq Hstep) as [Eq [Ea [En Et]]].
    unfold numbered. rewrite Eq, Ea, En, Et. split; [|exact Hle].
    exists ns. repeat split; assumption.
Qed.

Lemma run_numbered :
  forall s lines st st',
    numbered s st -> s <= auto_num st - (if dict_truthy (cur st) then 1 else 0) ->
    run false st lines = Ok st' ->
    numbered s st'
    /\ s <= auto_num st' - (if dict_truthy (cur st') then 1 else 0).
Proof.
  intros s. induction lines as [|l lines IH]; intros st st' Hn Hle Hrun;
    simpl in Hrun.
  - injection Hrun as <-. split; assumption.
  - destruct (step false st l) as [st1|e] eqn:E; simpl in Hrun;
      [|discriminate Hrun].
    destruct (step_numbered s st l st1 Hn Hle E) as [Hn1 Hle1].
    apply (IH st1 st' Hn1 Hle1 Hrun).
Qed.

Lemma count_starts_app :
  forall l1 l2, count_starts (l1 ++ l2) = (count_starts l1 + count_starts l2)%nat.
Proof.
  intros l1 l2. unfold count_starts. rewrite filter_app, length_app.
  reflexivity.
Qed.

End MoreParser.

(** X5: [parse_docx] returns a list, without raising, for every document
    in which each answer line has at least one piece in its answer text
    and the number at the head of each question-start line has no more
    digits than [int] converts. *)
Theorem parse_docx_total :
  forall (UD : UnicodeData) (paragraphs : list str) (s : Z) (respect : bool),
    Forall
      (fun p =>
         (is_answer_line (paragraph_line p) = true ->
          answer_parts (answer_text (paragraph_line p)) <> [])
         /\ (is_q_start (paragraph_line p) = true ->
             (N.of_nat (length (number_text (paragraph_line p)))
              <= int_max_str_digits)%N))
      paragraphs ->
    exists qs, parse_docx paragraphs s respect = Ok qs.
Proof.
  intros UD paragraphs s respect H. unfold parse_docx.
  destruct (run_total respect (map paragraph_line paragraphs ++ [[]])
              (PState [] empty_dict s)) as [st E].
  - apply Forall_app. split.
    + apply Forall_map. exact H.
    + constructor; [|constructor]. split; intros Ha.
      * rewrite (proj2 empty_line_kind) in Ha. discriminate Ha.
      * rewrite (proj1 empty_line_kind) in Ha. discriminate Ha.
  - rewrite E. simpl. eexists. reflexivity.
Qed.

Lemma parse_docx_total_witness :
  exists qs,
    @parse_docx AsciiTables
      [u "1.（判断）地球是圆的"; u "答案：对"; u "2. 选一个"; u "答案：B"]
      1 false = Ok qs.
Proof.
  apply (parse_docx_total AsciiTables).
  repeat (apply Forall_cons;
          [split; vm_compute; intros H; try discriminate H; intros H';
           discriminate H'|]).
  apply Forall_nil.
Defined.

Lemma forallb_map_comp :
  forall (A B : Type) (f : B -> bool) (g : A -> B) (l : list A),
    forallb f (map g l) = forallb (fun x => f (g x)) l.
Proof.
  intros A B f g l. induction l as [|x l IH]; simpl; [reflexivity|].
  rewrite IH. reflexivity.
Qed.

(** X6: a document without a question-start line gives no record and no
    error, whatever option, answer and text lines it has: without an open
    record they are all dropped. *)
Theorem no_question_start_no_record :
  forall (UD : UnicodeData) (paragraphs : list str) (s : Z) (respect : bool),
    forallb (fun p => negb (is_q_start (paragraph_line p))) paragraphs = true ->
    parse_docx paragraphs s respect = Ok [].
Proof.
  intros UD paragraphs s respect H. unfold parse_docx.
  rewrite (run_idle respect _ (PState [] empty_dict s) eq_refl).
  - reflexivity.
  - rewrite forallb_app. simpl. rewrite andb_true_r.
    rewrite forallb_map_comp. exact H.
Qed.

Lemma no_question_start_no_record_witness :
  @parse_docx AsciiTables [u "A. 甲"; u "答案：、"; u "（判断）没有题号"] 1 true
  = Ok [].
Proof.
  apply (no_question_start_no_record AsciiTables).
  vm_compute. reflexivity.
Defined.

(** X7: without declared numbering the numbers of the records in the
    output grow strictly (so no two records share a number), each lies
    between the start value and the start value plus the number of
    question-start lines, and there are at most as many records as
    question-start lines. *)
Theorem auto_numbers_increase :
  forall (UD : UnicodeData) (paragraphs : list str) (s : Z) (qs : list dict),
    parse_docx paragraphs s false = Ok qs ->
    exists ns,
      map number qs = map Some ns
      /\ StronglySorted Z.lt ns
      /\ Forall (fun n =>
                   s <= n
                   < s + Z.of_nat (count_starts (map paragraph_line paragraphs)))
           ns
      /\ (length qs <= count_starts (map paragraph_line paragraphs))%nat.
Proof.
  intros UD paragraphs s qs H. unfold parse_docx in H.
  destruct (run false (PState [] empty_dict s)
              (map paragraph_line paragraphs ++ [[]])) as [st|e] eqn:E;
    simpl in H; [|discriminate H].
  injection H as <-.
  assert (H0 : numbered s (PState [] empty_dict s)).
  { exists []. simpl. repeat split; try constructor; try lia; discriminate. }
  destruct (run_numbered s _ _ st H0 ltac:(simpl; lia) E)
    as [[ns [Hm [Hs [Hr [Hl Hb]]]]] Hle].
  pose proof (run_auto_num _ _ st E) as Ea. simpl in Ea.
  rewrite count_starts_app in Ea.
  change (count_starts [[]]) with 0%nat in Ea. rewrite Nat.add_0_r in Ea.
  destruct (flush_numbered s (questions st) (cur st) ns _ Hm Hs Hr Hl Hb)
    as [ns' [Hm' [Hs' [Hr' Hl']]]].
  exists ns'. split; [exact Hm'|]. split; [exact Hs'|]. split.
  - eapply Forall_impl; [|exact Hr']. simpl. intros n Hn.
    destruct (dict_truthy (cur st)); lia.
  - pose proof (f_equal (@length _) Hm') as El.
    rewrite !length_map in El. rewrite El.
    destruct (dict_truthy (cur st)); lia.
Qed.

Lemma auto_numbers_increase_witness :
  exists ns,
    map number
      [Dict (Some []) (Some (AList [])) (Some (u "单选")) (Some (u "甲"))
         (Some 5);
       Dict (Some []) (Some (AList [])) (Some (u "单选")) (Some (u "丙"))
         (Some 7)]
    = map Some ns
    /\ StronglySorted Z.lt ns
    /\ Forall (fun n => 5 <= n < 5 + 3) ns
    /\ (2 <= 3)%nat.
Proof.
  apply (auto_numbers_increase AsciiTables [u "1. 甲"; u "2."; u "3. 丙"] 5).
  vm_compute. reflexivity.
Defined.

(** ** The matcher finds only matches *)

Lemma rmatch_sound :
  forall r k st res,
    rmatch r k st = Some res ->
    exists st', reach r st st' /\ k st' = Some res.
Proof.
  induction r as [|cls|r1 IH1 r2 IH2|r1 IH1 r2 IH2|g r1 IH1|i r1 IH1| |];
    intros k st res H; simpl in H.
  - exists st. split; [constructor|exact H].
  - destruct st as [pos rest caps]. simpl in H.
    destruct rest as [|c rest]; [discriminate H|].
    destruct (cls c) eqn:Ec; [|discriminate H].
    eexists. split; [constructor; exact Ec|exact H].
  - apply IH1 in H. destruct H as [st1 [R1 H]].
    apply IH2 in H. destruct H as [st2 [R2 H]].
    exists st2. split; [econstructor; eassumption|exact H].
  - unfold orelse in H. destruct (rmatch r1 k st) as [x|] eqn:E.
    + injection H as <-. apply IH1 in E. destruct E as [st1 [R1 E]].
      exists st1. split; [apply reach_alt_l; exact R1|exact E].
    + apply IH2 in H. destruct H as [st1 [R1 H]].
      exists st1. split; [apply reach_alt_r; exact R1|exact H].
  - cbv zeta in H. revert H. generalize (length (m_rest st)) as fuel.
    intros fuel. revert st res.
    induction fuel as [|fuel IHf]; intros st res H.
    + exists st. split; [constructor|exact H].
    + assert (Hmore :
                forall (f : mstate -> option mstate) res',
                  (forall st1 x, f st1 = Some x ->
                     exists st', reach (Rep g r1) st1 st' /\ k st' = Some x) ->
                  rmatch r1
                    (fun st' =>
                       if Nat.ltb (length (m_rest st')) (length (m_rest st))
                       then f st' else None) st = Some res' ->
                  exists st', reach (Rep g r1) st st' /\ k st' = Some res').
      { intros f res' Hf E. apply IH1 in E. destruct E as [st1 [R1 E]].
        destruct (Nat.ltb (length (m_rest st1)) (length (m_rest st)));
          [|discriminate E].
        apply Hf in E. destruct E as [st2 [R2 E]].
        exists st2. split; [econstructor; eassumption|exact E]. }
      simpl in H. unfold orelse in H. destruct g.
      * match type of H with
        | match ?x with _ => _ end = _ => destruct x as [y|] eqn:E
        end.
        -- injection H as <-. apply (Hmore _ _ IHf E).
        -- exists st. split; [constructor|exact H].
      * destruct (k st) as [y|] eqn:E.
        -- injection H as <-. exists st. split; [constructor|exact E].
        -- apply (Hmore _ _ IHf H).
  - apply IH1 in H. destruct H as [st1 [R1 H]].
    eexists. split; [apply reach_grp; exact R1|exact H].
  - destruct (Nat.eqb (m_pos st) 0) eqn:E; [|discriminate H].
    exists st. split; [constructor; apply Nat.eqb_eq; exact E|exact H].
  - exists st. destruct (m_rest st) as [|c [|d rest]] eqn:E.
    + split; [constructor; left; exact E|exact H].
    + destruct c; try discriminate H.
      destruct p; try discriminate H. destruct p; try discriminate H.
      destruct p; try discriminate H. destruct p; try discriminate H.
      split; [constructor; right; exact E|exact H].
    + destruct c; try discriminate H.
      destruct p; try discriminate H. destruct p; try discriminate H.
      destruct p; try discriminate H. destruct p; discriminate H.
Qed.

(** What a match consumes is a prefix of what was left. *)
Lemma reach_consumed :
  forall r a b,
    reach r a b ->
    exists w, m_rest a = w ++ m_rest b
              /\ m_pos b = (m_pos a + length w)%nat.
Proof.
  intros r a b H. induction H; simpl.
  - exists []. split; [reflexivity|simpl; lia].
  - exists [c]. split; [reflexivity|simpl; lia].
  - destruct IHreach1 as [w1 [E1 P1]]. destruct IHreach2 as [w2 [E2 P2]].
    exists (w1 ++ w2). rewrite <- app_assoc, <- E2, <- E1, length_app.
    split; [reflexivity|simpl; lia].
  - exact IHreach.
  - exact IHreach.
  - exists []. split; [reflexivity|simpl; lia].
  - destruct IHreach1 as [w1 [E1 P1]]. destruct IHreach2 as [w2 [E2 P2]].
    exists (w1 ++ w2). rewrite <- app_assoc, <- E2, <- E1, length_app.
    split; [reflexivity|simpl; lia].
  - exact IHreach.
  - exists []. split; [reflexivity|simpl; lia].
  - exists []. split; [reflexivity|simpl; lia].
Qed.

Lemma reach_groups :
  forall i P r a b,
    reach r a b ->
    groups_sat i P r ->
    (forall s, In (i, s) (m_caps a) -> P s) ->
    forall s, In (i, s) (m_caps b) -> P s.
Proof.
  intros i P r a b H. induction H; intros G Ha s Hs; simpl in *;
    try (apply Ha; exact Hs).
  - destruct G as [G1 G2]. apply (IHreach2 G2 (IHreach1 G1 Ha) s Hs).
  - destruct G as [G1 G2]. apply (IHreach G1 Ha s Hs).
  - destruct G as [G1 G2]. apply (IHreach G2 Ha s Hs).
  - apply (IHreach2 G (IHreach1 G Ha) s Hs).
  - destruct G as [G1 G2]. destruct Hs as [Hs|Hs].
    + injection Hs as -> <-.
      destruct (reach_consumed r a b H) as [w [E Pw]].
      rewrite E. replace (m_pos b - m_pos a)%nat with (length w) by lia.
      rewrite firstn_app, Nat.sub_diag, firstn_all. simpl.
      rewrite app_nil_r. apply (G2 eq_refl a b w H E).
    + apply (IHreach G1 Ha s Hs).
Qed.

Lemma group_In :
  forall m i s, group m i = Some s -> In (i, s) m.
Proof.
  induction m as [|[j t] m IH]; intros i s H; simpl in H; [discriminate H|].
  destruct (Nat.eqb i j) eqn:E.
  - injection H as ->. apply Nat.eqb_eq in E. subst. left. reflexivity.
  - right. apply IH. exact H.
Qed.

(** What a group of a successful match holds has the property every group
    of that number captures with. *)
Theorem re_match_group :
  forall (i : nat) (P : str -> Prop) (r : regex) (s : str) (m : match_obj)
         (g : str),
    groups_sat i P r ->
    re_match r s = Some m ->
    group m i = Some g ->
    P g.
Proof.
  intros i P r s m g G Hm Hg. unfold re_match in Hm.
  destruct (rmatch r Some (MState 0 s [])) as [st|] eqn:E;
    [|discriminate Hm].
  simpl in Hm. injection Hm as <-.
  apply rmatch_sound in E. destruct E as [st' [R E]]. injection E as ->.
  apply (reach_groups i P r _ _ R G); [intros t []|].
  apply group_In. exact Hg.
Qed.

(** ** What the groups of the patterns hold *)

Lemma reach_group_kept :
  forall i r a b,
    reach r a b -> group (m_caps a) i <> None -> group (m_caps b) i <> None.
Proof.
  intros i r a b H. induction H; intros Ha; simpl; auto.
  destruct (Nat.eqb i i0); [discriminate|auto].
Qed.

Lemma reach_captured :
  forall i r a b,
    reach r a b -> captures i r -> group (m_caps b) i <> None.
Proof.
  intros i r a b H. induction H; intros C; simpl in C; try contradiction.
  - destruct C as [C|C].
    + apply (reach_group_kept i r2 b c H0). apply IHreach1. exact C.
    + apply IHreach2. exact C.
  - apply IHreach. apply C.
  - apply IHreach. apply C.
  - simpl. destruct C as [C|C].
    + subst. rewrite Nat.eqb_refl. discriminate.
    + destruct (Nat.eqb i i0); [discriminate|]. apply IHreach. exact C.
Qed.

(** A group that takes part in every match of [r] holds, after a match, a
    string with the property its captures have. *)
Lemma re_match_group_str :
  forall (i : nat) (P : str -> Prop) (r : regex) (s : str) (m : match_obj),
    groups_sat i P r -> captures i r ->
    re_match r s = Some m ->
    group m i = Some (group_str m i) /\ P (group_str m i).
Proof.
  intros i P r s m G C Hm.
  assert (Hg : group m i <> None).
  { unfold re_match in Hm.
    destruct (rmatch r Some (MState 0 s [])) as [st|] eqn:E;
      [|discriminate Hm].
    simpl in Hm. injection Hm as <-.
    apply rmatch_sound in E. destruct E as [st' [R E]]. injection E as ->.
    apply (reach_captured i r _ _ R C). }
  unfold group_str. destruct (group m i) as [g|] eqn:E; [|contradiction].
  split; [reflexivity|]. apply (re_match_group i P r s m g G Hm E).
Qed.

Lemma reach_chr_inv :
  forall cls a b,
    reach (Chr cls) a b ->
    exists c, m_rest a = c :: m_rest b /\ cls c = true.
Proof.
  intros cls a b H. inversion H; subst. simpl. eexists. split; eauto.
Qed.

Lemma reach_lit_inv :
  forall s a b, reach (lit s) a b -> m_rest a = s ++ m_rest b.
Proof.
  induction s as [|c s IH]; intros a b H; simpl in H.
  - inversion H; subst. reflexivity.
  - inversion H as [| |r1 r2 x y z H1 H2| | | | | | |]; subst.
    apply reach_chr_inv in H1. destruct H1 as [d [E Hd]].
    apply N.eqb_eq in Hd. subst d. rewrite E, (IH _ _ H2). reflexivity.
Qed.

Lemma type_word_captures :
  forall a b w,
    reach type_word a b -> m_rest a = w ++ m_rest b -> is_type_word w.
Proof.
  intros a b w H E. unfold type_word in H.
  assert (Hw : forall t, reach (lit t) a b -> w = t).
  { intros t R. apply reach_lit_inv in R. rewrite R in E.
    apply app_inv_tail in E. symmetry. exact E. }
  inversion H as [| | |r1 r2 x y H1|r1 r2 x y H1| | | | |]; subst.
  - inversion H1 as [| | |r1 r2 x y H2|r1 r2 x y H2| | | | |]; subst.
    + left. apply Hw. exact H2.
    + right. left. apply Hw. exact H2.
  - right. right. apply Hw. exact H1.
Qed.

Section PatternGroups.
Context {UD : UnicodeData}.

Lemma RE_Q_START_types : groups_sat 2 is_type_word RE_Q_START.
Proof.
  unfold RE_Q_START, star, plus, opt, one_of, ws, dot, digit.
  simpl. repeat split; try (intros E; discriminate E).
  intros _ a b w R E. apply (type_word_captures a b w R E).
Qed.

Lemma RE_Q_TYPE_AT_END_types : groups_sat 2 is_type_word RE_Q_TYPE_AT_END.
Proof.
  unfold RE_Q_TYPE_AT_END, star, lazy_star, one_of, ws, dot.
  simpl. repeat split; try (intros E; discriminate E).
  intros _ a b w R E. apply (type_word_captures a b w R E).
Qed.

(** Group 1 of [RE_OPT] is one letter, group 2 has a character that is no
    white space. *)
Lemma RE_OPT_label :
  groups_sat 1 (fun w => exists c, w = [c] /\ is_letter c = true) RE_OPT.
Proof.
  unfold RE_OPT, star, one_of, ws, dot, non_ws.
  simpl. repeat split; try (intros E; discriminate E).
  intros _ a b w R E. apply reach_chr_inv in R. destruct R as [c [Ec Hc]].
  rewrite Ec in E. change (c :: m_rest b) with ([c] ++ m_rest b) in E.
  apply app_inv_tail in E. exists c. split; [symmetry; exact E|exact Hc].
Qed.

Lemma RE_OPT_text :
  groups_sat 2 (fun w => forallb is_space w = false) RE_OPT.
Proof.
  unfold RE_OPT, star, one_of, ws, dot, non_ws.
  simpl. repeat split; try (intros E; discriminate E).
  intros _ a b w R E.
  inversion R as [| |r1 r2 x y z H1 H2| | | | | | |]; subst.
  apply reach_chr_inv in H2. destruct H2 as [c [Ec Hc]].
  destruct (reach_consumed _ _ _ H1) as [w1 [E1 _]].
  rewrite E1, Ec in E.
  change (w1 ++ c :: m_rest b) with (w1 ++ [c] ++ m_rest b) in E.
  rewrite app_assoc in E. apply app_inv_tail in E. subst w.
  rewrite forallb_app. simpl. apply negb_true_iff in Hc. rewrite Hc.
  rewrite andb_false_r. reflexivity.
Qed.

Lemma RE_OPT_captures : captures 1 RE_OPT /\ captures 2 RE_OPT.
Proof.
  unfold RE_OPT. simpl. split.
  - right. right. left. left. reflexivity.
  - do 6 right. left. left. reflexivity.
Qed.

End PatternGroups.

(** ** The shape of the records *)

Section RecordShape.
Context {UD : UnicodeData}.

Lemma is_upper_AZ_range :
  forall c, is_upper_AZ c = true -> (65 <= c <= 90)%N.
Proof.
  intros c H. unfold is_upper_AZ, between in H.
  apply andb_true_iff in H. destruct H as [H1 H2].
  apply N.leb_le in H1. apply N.leb_le in H2. lia.
Qed.

Lemma upper_label_fixed : forall x, is_label x -> upper x = x.
Proof.
  intros x [c [-> Hc]]. apply upper_ascii_letter.
  apply is_upper_AZ_range. exact Hc.
Qed.

Lemma upper_letter_label :
  forall c, is_letter c = true -> is_label (upper [c]).
Proof.
  intros c H. unfold is_letter, between in H.
  assert (Hc : (65 <= c <= 90)%N \/ (97 <= c <= 122)%N).
  { apply orb_true_iff in H.
    destruct H as [H|H]; apply andb_true_iff in H; destruct H as [H1 H2];
      apply N.leb_le in H1; apply N.leb_le in H2; [left|right]; lia. }
  unfold upper. simpl. rewrite app_nil_r.
  rewrite toupper_full_ascii by lia.
  exists (ascii_upper c). split; [reflexivity|].
  unfold ascii_upper, is_upper_AZ, between.
  destruct Hc as [Hc|Hc].
  - replace (97 <=? c)%N with false by (symmetry; apply N.leb_gt; lia).
    simpl. apply andb_true_iff. split; apply N.leb_le; lia.
  - replace (97 <=? c)%N with true by (symmetry; apply N.leb_le; lia).
    replace (c <=? 122)%N with true by (symmetry; apply N.leb_le; lia).
    simpl. apply andb_true_iff. split; apply N.leb_le; lia.
Qed.

Lemma default_options_wf : Forall wf_option default_options.
Proof.
  unfold default_options.
  repeat constructor; simpl;
    try (eexists; split; reflexivity);
    try (intros H; discriminate H); vm_compute; reflexivity.
Qed.

Lemma finalized_options_wf :
  forall opts,
    Forall wf_option opts -> Forall wf_option (finalized_options opts).
Proof.
  intros opts H. apply Forall_forall. intros o Ho.
  unfold finalized_options in Ho. apply keep_first_incl in Ho.
  apply in_map_iff in Ho. destruct Ho as [o0 [<- Hin]].
  apply filter_In in Hin. destruct Hin as [Hin _].
  rewrite Forall_forall in H. destruct (H o0 Hin) as [Hl [Ht Hc]].
  unfold wf_option, normalize_option. simpl.
  rewrite (upper_label_fixed _ Hl), Hc. repeat split; assumption.
Qed.

Lemma options_to_clean_wf :
  forall buf opts,
    options buf = Some opts -> Forall wf_option opts ->
    Forall wf_option (options_to_clean buf).
Proof.
  intros buf opts E H. unfold options_to_clean.
  destruct (is_judge (qtype buf) && negb (list_truthy (options buf)))%bool.
  - apply default_options_wf.
  - rewrite E. exact H.
Qed.

Lemma finalized_wf :
  forall buf,
    wf_fields buf -> has_question buf -> wf_record (finalized buf).
Proof.
  intros buf [[opts [Eo Ho]] [[l [Ea [Hn Hl]]] [Ht [Hq Hnum]]]] Hhas.
  unfold wf_record, wf_fields, finalized. simpl.
  split; [split; [|split; [|split; [|split]]]|split].
  - eexists. split; [reflexivity|]. apply finalized_options_wf.
    apply (options_to_clean_wf buf opts Eo Ho).
  - exists l. unfold finalized_answer. rewrite Ea. simpl.
    repeat split; assumption.
  - exact Ht.
  - exact Hq.
  - exact Hnum.
  - eexists. split; [reflexivity|]. apply keep_first_NoDup.
  - destruct Hhas as [q [E [Hne _]]]. exists q. split; assumption.
Qed.

Lemma flush_current_wf :
  forall q_list buf,
    Forall wf_record q_list ->
    (dict_truthy buf = true -> wf_fields buf) ->
    Forall wf_record (fst (flush_current q_list buf)).
Proof.
  intros q_list buf Hq Hb.
  destruct (flush_current_list q_list buf) as [E|[E [Ht Hhas]]]; rewrite E.
  - exact Hq.
  - apply Forall_app. split; [exact Hq|]. constructor; [|constructor].
    rewrite (flush_current_truthy q_list buf Ht) in E.
    destruct (str_truthy (clean (get_or (question buf) []))) eqn:Es;
      simpl in E.
    + apply finalized_wf; [apply Hb; exact Ht|].
      apply clean_truthy_has_question. exact Es.
    + exfalso. apply (f_equal (@length dict)) in E.
      rewrite length_app in E. simpl in E. lia.
Qed.

Lemma extract_type_word :
  forall text t,
    fst (extract_type_from_text text) = Some t -> is_type_word t.
Proof.
  intros text t. unfold extract_type_from_text.
  destruct (re_match RE_Q_TYPE_AT_END text) as [m|] eqn:E; simpl;
    [|discriminate].
  intros H.
  apply (re_match_group 2 is_type_word RE_Q_TYPE_AT_END text m t
           RE_Q_TYPE_AT_END_types E H).
Qed.

Lemma extract_type_clean :
  forall text, clean (snd (extract_type_from_text text))
               = snd (extract_type_from_text text).
Proof.
  intros text. unfold extract_type_from_text.
  destruct (re_match RE_Q_TYPE_AT_END text); simpl; apply clean_idempotent.
Qed.

Lemma or_str_type_word :
  forall a b,
    (forall t, a = Some t -> is_type_word t) -> is_type_word b ->
    is_type_word (or_str a b).
Proof.
  intros [t|] b Ha Hb; simpl; [|exact Hb].
  destruct (str_truthy t); [apply Ha; reflexivity|exact Hb].
Qed.

Lemma step_wf :
  forall respect st raw st',
    wf_state st -> step respect st raw = Ok st' -> wf_state st'.
Proof.
  intros respect st raw st' [Hq Hc] Hstep.
  destruct (is_q_start raw) eqn:Hs.
  - unfold is_q_start in Hs. unfold step in Hstep.
    destruct (re_match RE_Q_START (strip raw)) as [m|] eqn:Em;
      [|discriminate Hs].
    destruct (int (group_str m 1)) as [n0|e0]; cbn [bind] in Hstep;
      [|discriminate Hstep].
    destruct (extract_type_from_text (strip (group_str m 3)))
      as [typ2 qtext2] eqn:Ex.
    assert (Hty : is_type_word
                    (or_str (group m 2) (or_str typ2 (u "单选")))).
    { apply or_str_type_word.
      - intros t Ht.
        apply (re_match_group 2 is_type_word RE_Q_START _ m t
                 RE_Q_START_types Em Ht).
      - apply or_str_type_word; [|left; reflexivity].
        intros t Ht. apply (extract_type_word (strip (group_str m 3))).
        rewrite Ex. exact Ht. }
    assert (Hfl : Forall wf_record
                    (fst (flush_current (questions st) (cur st))))
      by (apply flush_current_wf; assumption).
    destruct respect; injection Hstep as <-; split; simpl;
      try exact Hfl; intros _; unfold wf_fields; simpl;
      (split; [exists []; split; [reflexivity|constructor]|]);
      (split; [exists []; repeat split; constructor|]);
      (split; [eexists; split; [reflexivity|exact Hty]|]);
      (split; [eexists; split; [reflexivity|apply clean_idempotent]|]);
      eexists; reflexivity.
  - destruct (dict_truthy (cur st)) eqn:Ht.
    + specialize (Hc eq_refl).
      destruct Hc as [[opts [Eo Ho]] [[l [Ea [Hn Hl]]] [Hty [Hqu Hnum]]]].
      unfold is_q_start in Hs. unfold step in Hstep.
      destruct (re_match RE_Q_START (strip raw)); [discriminate Hs|].
      rewrite Ht in Hstep.
      destruct (re_match RE_OPT (strip raw)) as [m2|] eqn:Em2.
      * injection Hstep as <-. split; [exact Hq|]. intros _.
        unfold wf_fields. simpl. rewrite Eo. simpl.
        split; [|repeat split; try assumption; exists l; auto].
        eexists. split; [reflexivity|].
        apply Forall_app. split; [exact Ho|]. constructor; [|constructor].
        destruct (re_match_group_str 1 _ RE_OPT _ m2 RE_OPT_label
                    (proj1 RE_OPT_captures) Em2) as [_ [c [E1 Hc1]]].
        destruct (re_match_group_str 2 _ RE_OPT _ m2 RE_OPT_text
                    (proj2 RE_OPT_captures) Em2) as [_ H2].
        unfold wf_option. simpl. rewrite E1.
        split; [apply upper_letter_label; exact Hc1|].
        split; [|apply clean_idempotent].
        intros Hnil. apply clean_nil_iff in Hnil. congruence.
      * destruct (re_match RE_ANS (strip raw)) as [m3|].
        -- destruct (normalize_answers (group_str m3 1)
                       (get_or (qtype (cur st)) (u "单选"))) as [ans|e] eqn:En;
             simpl in Hstep; [|discriminate Hstep].
           injection Hstep as <-. split; [exact Hq|]. intros _.
           destruct (normalize_answers_labels _ _ _ En) as [Hnd [Hlab _]].
           unfold wf_fields. simpl.
           split; [exists opts; auto|].
           split; [exists ans; auto|]. auto.
        -- simpl in Hstep. destruct (str_truthy (strip raw)).
           ++ destruct (extract_type_from_text (strip raw))
                as [typ2 body2] eqn:Ex.
              injection Hstep as <-. split; [exact Hq|]. intros _.
              unfold wf_fields.
              destruct (opt_truthy typ2) eqn:Eo2; simpl.
              ** rewrite Eo, Ea.
                 split; [exists opts; auto|].
                 split; [exists l; auto|].
                 split; [|split; [eexists; split;
                                  [reflexivity|apply clean_idempotent]
                                 |exact Hnum]].
                 destruct typ2 as [t|]; [|discriminate Eo2].
                 exists t. split; [reflexivity|].
                 apply (extract_type_word (strip raw)). rewrite Ex.
                 reflexivity.
              ** rewrite Eo, Ea.
                 split; [exists opts; auto|].
                 split; [exists l; auto|].
                 split; [exact Hty|].
                 split; [eexists; split; [reflexivity|apply clean_idempotent]
                        |exact Hnum].
           ++ injection Hstep as <-. split; [exact Hq|]. intros _.
              unfold wf_fields. rewrite Eo, Ea.
              split; [exists opts; auto|]. split; [exists l; auto|]. auto.
    + rewrite (step_idle respect st raw Ht Hs) in Hstep.
      injection Hstep as <-. split; [exact Hq|].
      intros H. rewrite Ht in H. discriminate H.
Qed.

Lemma run_wf :
  forall respect lines st st',
    wf_state st -> run respect st lines = Ok st' -> wf_state st'.
Proof.
  induction lines as [|l lines IH]; intros st st' H Hrun; simpl in Hrun.
  - injection Hrun as <-. exact H.
  - destruct (step respect st l) as [st1|e] eqn:E; simpl in Hrun;
      [|discriminate Hrun].
    apply (IH st1 st' (step_wf respect st l st1 H E) Hrun).
Qed.

Lemma parse_docx_wf :
  forall paragraphs s respect qs,
    parse_docx paragraphs s respect = Ok qs -> Forall wf_record qs.
Proof.
  intros paragraphs s respect qs H. unfold parse_docx in H.
  destruct (run respect (PState [] empty_dict s)
              (map paragraph_line paragraphs ++ [[]])) as [st|e] eqn:E;
    simpl in H; [|discriminate H].
  injection H as <-.
  assert (H0 : wf_state (PState [] empty_dict s))
    by (split; [constructor|simpl; discriminate]).
  destruct (run_wf respect _ _ st H0 E) as [Hq Hc].
  apply flush_current_wf; assumption.
Qed.

End RecordShape.

(** ** The records of the output *)

Lemma sample_doc_parsed :
  @parse_docx AsciiTables sample_doc 1 true = Ok sample_records.
Proof. vm_compute. reflexivity. Qed.

(** X8: the type of every record in the output is one of the three
    words 单选, 多选, 判断. *)
Theorem parse_docx_types :
  forall (UD : UnicodeData) (paragraphs : list str) (s : Z) (respect : bool)
         (qs : list dict),
    parse_docx paragraphs s respect = Ok qs ->
    Forall (fun r => qtype r = Some (u "单选") \/ qtype r = Some (u "多选")
                     \/ qtype r = Some (u "判断")) qs.
Proof.
  intros UD paragraphs s respect qs H.
  eapply Forall_impl; [|apply (parse_docx_wf paragraphs s respect qs H)].
  intros r [[_ [_ [[t [Et Ht]] _]]] _]. rewrite Et.
  destruct Ht as [ -> | [ -> | -> ] ]; auto.
Qed.

Lemma parse_docx_types_witness :
  Forall (fun r => qtype r = Some (u "单选") \/ qtype r = Some (u "多选")
                   \/ qtype r = Some (u "判断")) sample_records.
Proof.
  apply (parse_docx_types AsciiTables sample_doc 1 true).
  exact sample_doc_parsed.
Defined.

(** X9: in every record of the output the options have pairwise distinct
    labels, each label is one capital letter from A to Z, and each text is
    not empty and already cleaned. *)
Theorem parse_docx_options :
  forall (UD : UnicodeData) (paragraphs : list str) (s : Z) (respect : bool)
         (qs : list dict),
    parse_docx paragraphs s respect = Ok qs ->
    Forall (fun r =>
              exists opts,
                options r = Some opts
                /\ NoDup (map label opts)
                /\ Forall (fun o =>
                             (exists c, label o = [c]
                                        /\ is_upper_AZ c = true)
                             /\ text o <> []
                             /\ clean (text o) = text o) opts) qs.
Proof.
  intros UD paragraphs s respect qs H.
  eapply Forall_impl; [|apply (parse_docx_wf paragraphs s respect qs H)].
  intros r [[[opts [Eo Ho]] _] [[opts' [Eo' Hn]] _]].
  exists opts. split; [exact Eo|]. split; [|exact Ho].
  rewrite Eo in Eo'. injection Eo' as <-. exact Hn.
Qed.

Lemma parse_docx_options_witness :
  Forall (fun r =>
            exists opts,
              options r = Some opts
              /\ NoDup (map label opts)
              /\ Forall (fun o =>
                           (exists c, label o = [c] /\ is_upper_AZ c = true)
                           /\ text o <> []
                           /\ clean (text o) = text o) opts) sample_records.
Proof.
  apply (parse_docx_options AsciiTables sample_doc 1 true).
  exact sample_doc_parsed.
Defined.

(** X10: the answer of every record in the output is a list of pairwise
    distinct labels, each one capital letter from A to Z. *)
Theorem parse_docx_answers :
  forall (UD : UnicodeData) (paragraphs : list str) (s : Z) (respect : bool)
         (qs : list dict),
    parse_docx paragraphs s respect = Ok qs ->
    Forall (fun r =>
              exists l,
                answer r = Some (AList l)
                /\ NoDup l
                /\ Forall (fun x => exists c, x = [c]
                                              /\ is_upper_AZ c = true) l) qs.
Proof.
  intros UD paragraphs s respect qs H.
  eapply Forall_impl; [|apply (parse_docx_wf paragraphs s respect qs H)].
  intros r [[_ [Ha _]] _]. exact Ha.
Qed.

Lemma parse_docx_answers_witness :
  Forall (fun r =>
            exists l,
              answer r = Some (AList l)
              /\ NoDup l
              /\ Forall (fun x => exists c, x = [c] /\ is_upper_AZ c = true) l)
    sample_records.
Proof.
  apply (parse_docx_answers AsciiTables sample_doc 1 true).
  exact sample_doc_parsed.
Defined.

(** X11: every record in the output has a number and a question text
    that is not empty and already cleaned. *)
Theorem parse_docx_questions_clean :
  forall (UD : UnicodeData) (paragraphs : list str) (s : Z) (respect : bool)
         (qs : list dict),
    parse_docx paragraphs s respect = Ok qs ->
    Forall (fun r =>
              exists q n,
                question r = Some q /\ q <> [] /\ clean q = q
                /\ number r = Some n) qs.
Proof.
  intros UD paragraphs s respect qs H.
  eapply Forall_impl; [|apply (parse_docx_wf paragraphs s respect qs H)].
  intros r [[_ [_ [_ [[q [Eq Hc]] [n En]]]]] [_ [q' [Eq' Hne]]]].
  exists q, n. rewrite Eq in Eq'. injection Eq' as <-. auto.
Qed.

Lemma parse_docx_questions_clean_witness :
  Forall (fun r =>
            exists q n,
              question r = Some q /\ q <> [] /\ clean q = q
              /\ number r = Some n) sample_records.
Proof.
  apply (parse_docx_questions_clean AsciiTables sample_doc 1 true).
  exact sample_doc_parsed.
Defined.

(** ** Declared numbers *)

Section Declared.
Context {UD : UnicodeData}.

Lemma step_start_declared :
  forall st raw st',
    is_q_start raw = true ->
    step true st raw = Ok st' ->
    exists c,
      st' = PState (fst (flush_current (questions st) (cur st))) c
              (declared_number raw + 1)
      /\ number c = Some (declared_number raw).
Proof.
  intros st raw st' Hs Hstep.
  destruct (step_start true st raw st' Hs Hstep)
    as [c [m [n [Em [Ei [E [Hn _]]]]]]].
  exists c. unfold declared_number. rewrite Em, Ei. split; assumption.
Qed.

Lemma run_keeps_counter :
  forall respect lines st st',
    forallb (fun l => negb (is_q_start l)) lines = true ->
    run respect st lines = Ok st' ->
    auto_num st' = auto_num st.
Proof.
  induction lines as [|l lines IH]; simpl; intros st st' Hno Hrun.
  - injection Hrun as <-. reflexivity.
  - apply andb_true_iff in Hno. destruct Hno as [Hl Hno].
    apply negb_true_iff in Hl.
    destruct (step respect st l) as [st1|e] eqn:E; simpl in Hrun;
      [|discriminate Hrun].
    destruct (step_other respect st l st1 Hl E) as [_ [Ea _]].
    rewrite (IH st1 st' Hno Hrun). exact Ea.
Qed.

End Declared.

(** X12: with declared numbering, the record opened by a question-start
    line has the number written at the head of that line, whatever the
    counter was, keeps it until it is flushed, and the counter becomes that
    number plus one. *)
Theorem declared_numbering :
  forall (UD : UnicodeData) (st : pstate) (raw : str) (mid : list str)
         (st' : pstate),
    is_q_start raw = true ->
    forallb (fun l => negb (is_q_start l)) mid = true ->
    run true st (raw :: mid) = Ok st' ->
    number (cur st') = Some (declared_number raw)
    /\ number (finalized (cur st')) = Some (declared_number raw)
    /\ auto_num st' = declared_number raw + 1.
Proof.
  intros UD st raw mid st' Hs Hmid Hrun. simpl in Hrun.
  destruct (step true st raw) as [st1|e] eqn:E1; simpl in Hrun;
    [|discriminate Hrun].
  destruct (step_start_declared st raw st1 Hs E1) as [c [-> Hn]].
  destruct (run_keeps_number true mid _ st' Hmid Hrun) as [En _].
  pose proof (run_keeps_counter true mid _ st' Hmid Hrun) as Ea.
  simpl in En, Ea. rewrite Hn in En.
  split; [exact En|]. split; [exact En|exact Ea].
Qed.

Lemma declared_numbering_witness :
  exists st',
    @run AsciiTables true (initial 1) (u "12、第十二题" :: [u "A. 甲"])
    = Ok st'
    /\ number (cur st') = Some 12 /\ auto_num st' = 13.
Proof.
  eexists. split; [vm_compute; reflexivity|].
  destruct (declared_numbering AsciiTables (initial 1) (u "12、第十二题")
              [u "A. 甲"] _
              ltac:(vm_compute; reflexivity) ltac:(vm_compute; reflexivity)
              ltac:(vm_compute; reflexivity)) as [H1 [_ H2]].
  split; [exact H1|exact H2].
Defined.

(** ** The type at the end of a text *)

Lemma RE_Q_TYPE_AT_END_captures : captures 2 RE_Q_TYPE_AT_END.
Proof.
  unfold RE_Q_TYPE_AT_END. simpl.
  do 3 right. left. left. reflexivity.
Qed.

(** X13: the text [extract_type_from_text] returns is cleaned; the type it
    returns, if any, is one of the three words; and when it returns no
    type, the text is the cleaned argument. *)
Theorem extract_type_from_text_result :
  forall text : str,
    clean (snd (extract_type_from_text text))
    = snd (extract_type_from_text text)
    /\ (forall t, fst (extract_type_from_text text) = Some t ->
                  t = u "单选" \/ t = u "多选" \/ t = u "判断")
    /\ (fst (extract_type_from_text text) = None ->
        snd (extract_type_from_text text) = clean text).
Proof.
  intros text. split; [apply extract_type_clean|]. split.
  - intros t H. apply (extract_type_word text t H).
  - unfold extract_type_from_text.
    destruct (re_match RE_Q_TYPE_AT_END text) as [m|] eqn:E; simpl;
      [|reflexivity].
    intros H.
    destruct (re_match_group_str 2 is_type_word RE_Q_TYPE_AT_END text m
                RE_Q_TYPE_AT_END_types RE_Q_TYPE_AT_END_captures E)
      as [Hg _].
    rewrite Hg in H. discriminate H.
Qed.

Lemma extract_type_from_text_result_witness :
  extract_type_from_text (u "  没有  题型 ")
  = (None, u "没有 题型").
Proof.
  destruct (extract_type_from_text_result (u "  没有  题型 "))
    as [_ [_ H]].
  rewrite (surjective_pairing (extract_type_from_text _)).
  rewrite (H ltac:(vm_compute; reflexivity)).
  vm_compute. reflexivity.
Defined.

(** ** Renumbering *)

Lemma renumber_raises :
  forall l n,
    Exists (fun v => ~ is_record v) l -> renumber n l = Raise TypeError.
Proof.
  induction l as [|item l IH]; intros n H; [inversion H|].
  simpl. destruct item; simpl; try reflexivity.
  inversion H as [? ? Hx|? ? Hx]; subst; [exfalso; apply Hx; exact I|].
  rewrite (IH (n + 1) Hx). reflexivity.
Qed.

(** X15: when the array of the existing file or the new list holds
    something that is not a dictionary, merging with renumbering raises
    [TypeError], while merging without renumbering gives the concatenation
    as it is. *)
Theorem merge_existing_renumber_needs_records :
  forall (JD : JsonDecoder) (text payload : str) (old new_list : list pyval)
         (s : Z),
    wrapped_payload text = Some payload ->
    json_loads payload = Some (PyList old) ->
    Exists (fun v => ~ is_record v) (old ++ new_list) ->
    merge_existing (Some text) new_list true s = Raise TypeError
    /\ merge_existing (Some text) new_list false s = Ok (old ++ new_list).
Proof.
  intros JD text payload old new_list s Hp Hl Hex. split.
  - rewrite (merge_existing_loaded text payload old new_list true s Hp Hl).
    apply renumber_raises. exact Hex.
  - apply (merge_existing_loaded text payload old new_list false s Hp Hl).
Qed.

Lemma merge_existing_renumber_needs_records_witness :
  @merge_existing Json.Decoder (Some (u "window.questionsData = [1, 2];"))
    [PyDict [(u "number", PyInt 7)]] true 1
  = Raise TypeError.
Proof.
  apply (proj1 (merge_existing_renumber_needs_records Json.Decoder
                  (u "window.questionsData = [1, 2];") (u "[1, 2]")
                  [PyInt 1; PyInt 2] [PyDict [(u "number", PyInt 7)]] 1
                  ltac:(vm_compute; reflexivity)
                  ltac:(vm_compute; reflexivity)
                  ltac:(apply Exists_cons_hd; intros H; exact H))).
Defined.

(** A run of the merge on a file written by [write_js]. *)
Lemma merge_existing_concatenates_witness :
  @merge_existing Json.Decoder
    (Some (write_js [PyDict [(u "number", PyInt 7);
                             (u "question", PyStr (u "old"))]]))
    [PyDict [(u "question", PyStr (u "new")); (u "number", PyInt 1)]]
    false 3
  = Ok ([PyDict [(u "number", PyInt 7); (u "question", PyStr (u "old"))]]
        ++ [PyDict [(u "question", PyStr (u "new")); (u "number", PyInt 1)]]).
Proof.
  apply (proj1 (merge_existing_concatenates Json.Decoder
                  (write_js [PyDict [(u "number", PyInt 7);
                                     (u "question", PyStr (u "old"))]])
                  (json_dumps
                     (PyList [PyDict [(u "number", PyInt 7);
                                      (u "question", PyStr (u "old"))]]))
                  [PyDict [(u "number", PyInt 7);
                           (u "question", PyStr (u "old"))]]
                  [PyDict [(u "question", PyStr (u "new"));
                           (u "number", PyInt 1)]]
                  3
                  ltac:(vm_compute; reflexivity)
                  ltac:(vm_compute; reflexivity))).
Defined.

Lemma with_number_dict_to_py :
  forall d n, with_number n (dict_to_py d) = dict_to_py (set_number d n).
Proof.
  intros [[o|] [a|] [t|] [q|] [m|]] n; reflexivity.
Qed.

(** X16: the renumbering loop never fails on records of the parser; it
    gives them the numbers [n], [n + 1], ... in order and leaves their
    options, answers, types and questions (and the order of their keys) as
    they were. *)
Theorem renumber_parsed_records :
  forall (qs : list dict) (n : Z),
    renumber n (map dict_to_py qs) = Ok (map dict_to_py (number_from n qs))
    /\ map options (number_from n qs) = map options qs
    /\ map answer (number_from n qs) = map answer qs
    /\ map qtype (number_from n qs) = map qtype qs
    /\ map question (number_from n qs) = map question qs
    /\ map number (number_from n qs)
       = map (fun i => Some (n + Z.of_nat i)) (seq 0 (length qs)).
Proof.
  intros qs n. split.
  - rewrite renumber_records.
    + f_equal. revert n. induction qs as [|d qs IH]; intros n;
        cbn [map renumbered number_from]; [reflexivity|].
      rewrite with_number_dict_to_py, IH. reflexivity.
    + apply Forall_map. apply Forall_forall. intros d _. exact I.
  - repeat split; revert n; induction qs as [|d qs IH]; intros n; simpl;
      try reflexivity; try (rewrite IH; reflexivity).
    rewrite IH. f_equal; [f_equal; lia|].
    rewrite <- seq_shift, map_map. apply map_ext. intros i. f_equal. lia.
Qed.

(** ** The file write_js writes and the pattern of the merge *)

Lemma orelse_found :
  forall (A : Type) (a : option A) (b : unit -> option A),
    a <> None -> orelse a b <> None.
Proof. intros A [x|] b H; simpl; [discriminate|contradiction]. Qed.

(** A repetition of one character class, unfolded once. *)
Lemma rmatch_rep_chr :
  forall g cls k p c r caps,
    rmatch (Rep g (Chr cls)) k (MState p (c :: r) caps)
    = let more := fun _ : unit =>
        if cls c then rmatch (Rep g (Chr cls)) k (MState (S p) r caps)
        else None in
      if g then orelse (more tt) (fun _ => k (MState p (c :: r) caps))
      else orelse (k (MState p (c :: r) caps)) more.
Proof.
  intros g cls k p c r caps. simpl. unfold Nat.ltb.
  destruct (cls c).
  - simpl. rewrite Nat.leb_refl. reflexivity.
  - reflexivity.
Qed.

Lemma rmatch_lit :
  forall s k p rest caps,
    rmatch (lit s) k (MState p (s ++ rest) caps)
    = k (MState (length s + p) rest caps).
Proof.
  induction s as [|c s IH]; intros k p rest caps; [reflexivity|].
  simpl. unfold cp_eqb. rewrite N.eqb_refl. rewrite IH.
  f_equal. f_equal. lia.
Qed.

(** White space in front of a character that is none: the greedy run takes
    it and stops. *)
Lemma rmatch_star_ws_one :
  forall k p c r caps,
    is_space c = false ->
    k (MState (S p) (c :: r) caps) <> None ->
    rmatch (star ws) k (MState p (32%N :: c :: r) caps) <> None.
Proof.
  intros k p c r caps Hc H. unfold star, ws.
  rewrite rmatch_rep_chr. cbv zeta.
  change (is_space 32) with true. cbv iota.
  apply orelse_found.
  rewrite rmatch_rep_chr. cbv zeta. rewrite Hc. exact H.
Qed.

Lemma rmatch_star_ws_none :
  forall k p c r caps,
    is_space c = false ->
    k (MState p (c :: r) caps) <> None ->
    rmatch (star ws) k (MState p (c :: r) caps) <> None.
Proof.
  intros k p c r caps Hc H. unfold star, ws.
  rewrite rmatch_rep_chr. cbv zeta. rewrite Hc. exact H.
Qed.

(** A lazy run of any characters finds a place where the rest of the
    pattern matches, if there is one ahead. *)
Lemma lazy_any_finds :
  forall X k p Y caps,
    k (MState (length X + p) Y caps) <> None ->
    rmatch (lazy_star any_char) k (MState p (X ++ Y) caps) <> None.
Proof.
  unfold lazy_star.
  induction X as [|c X IH]; intros k p Y caps H; simpl app.
  - simpl in H. destruct Y as [|c Y]; [exact H|].
    unfold any_char. rewrite rmatch_rep_chr. cbv zeta.
    apply orelse_found. exact H.
  - unfold any_char. rewrite rmatch_rep_chr. cbv zeta.
    destruct (k (MState p (c :: X ++ Y) caps)) eqn:E; simpl;
      [discriminate|].
    apply IH. replace (length X + S p)%nat with (length (c :: X) + p)%nat
      by (simpl; lia). exact H.
Qed.

Lemma wrapped_matches :
  forall name X tail,
    rmatch (wrapped name) Some
      (MState 0 (name ++ [32%N; 61%N; 32%N]
                 ++ (91%N :: X ++ [93%N]) ++ 59%N :: tail) [])
    <> None.
Proof.
  intros name X tail. unfold wrapped.
  cbn [rmatch]. rewrite rmatch_lit.
  cbn [app]. apply rmatch_star_ws_one; [reflexivity|].
  cbn [rmatch chr m_rest m_pos m_caps]. change (cp_eqb 61 61) with true. cbv iota.
  apply rmatch_star_ws_one; [reflexivity|].
  cbn [rmatch chr m_rest m_pos m_caps]. change (cp_eqb 91 91) with true. cbv iota.
  rewrite <- app_assoc.
  apply lazy_any_finds.
  cbn [rmatch chr m_rest m_pos m_caps app].
  change (cp_eqb 93 93) with true. cbv iota.
  apply rmatch_star_ws_none; [reflexivity|].
  cbn [rmatch chr m_rest m_pos m_caps]. change (cp_eqb 59 59) with true. cbv iota.
  discriminate.
Qed.

(** ** What a match of the pattern has consumed *)

(** A pattern without groups leaves the captures as they are. *)
Lemma reach_group_free :
  forall r a b, reach r a b -> group_free r -> m_caps b = m_caps a.
Proof.
  intros r a b H. induction H; intros F; simpl in F; try reflexivity.
  - destruct F as [F1 F2]. rewrite (IHreach2 F2). apply IHreach1, F1.
  - apply IHreach, F.
  - apply IHreach, F.
  - rewrite (IHreach2 F). apply IHreach1, F.
  - contradiction.
Qed.

Lemma lit_group_free : forall s, group_free (lit s).
Proof. induction s as [|c s IH]; simpl; auto. Qed.

Lemma reach_star_ws :
  forall g a b,
    reach (Rep g ws) a b ->
    exists w, m_rest a = w ++ m_rest b /\ forallb is_space w = true.
Proof.
  intros g a b H. remember (Rep g ws) as r eqn:Er.
  induction H; try discriminate Er.
  - exists []. split; reflexivity.
  - injection Er as -> ->. specialize (IHreach2 eq_refl).
    destruct IHreach2 as [w [E F]].
    apply reach_chr_inv in H. destruct H as [c0 [E0 F0]].
    exists (c0 :: w). rewrite E0, E. simpl. rewrite F0, F.
    split; reflexivity.
Qed.

Lemma reach_the_chr :
  forall c a b, reach (chr c) a b -> m_rest a = c :: m_rest b.
Proof.
  intros c a b H. apply reach_chr_inv in H. destruct H as [d [E Hd]].
  apply N.eqb_eq in Hd. subst d. exact E.
Qed.

Lemma reach_cat_inv :
  forall r1 r2 a c,
    reach (Cat r1 r2) a c -> exists b, reach r1 a b /\ reach r2 b c.
Proof.
  intros r1 r2 a c H. inversion H; subst. eexists; split; eassumption.
Qed.

Lemma reach_grp_inv :
  forall i r a c,
    reach (Grp i r) a c ->
    exists b, reach r a b /\ m_rest c = m_rest b
      /\ m_caps c = (i, firstn (m_pos b - m_pos a) (m_rest a)) :: m_caps b.
Proof.
  intros i r a c H. inversion H; subst. eexists. split; [eassumption|].
  split; reflexivity.
Qed.

(** A match of the pattern from the start of a text: the name, white
    space, the equals sign, white space, the captured array, white space
    and the semicolon. *)
Lemma reach_wrapped_inv :
  forall name T st,
    reach (wrapped name) (MState 0 T []) st ->
    exists s1 s2 w s3 tail,
      T = name ++ s1 ++ 61%N :: s2 ++ w ++ s3 ++ 59%N :: tail
      /\ forallb is_space s1 = true
      /\ forallb is_space s2 = true
      /\ forallb is_space s3 = true
      /\ (exists Y, w = 91%N :: Y ++ [93%N])
      /\ m_caps st = [(1%nat, w)].
Proof.
  intros name T st H. unfold wrapped in H.
  apply reach_cat_inv in H. destruct H as [a1 [H1 H]].
  apply reach_cat_inv in H. destruct H as [a2 [H2 H]].
  apply reach_cat_inv in H. destruct H as [a3 [H3 H]].
  apply reach_cat_inv in H. destruct H as [a4 [H4 H]].
  apply reach_cat_inv in H. destruct H as [a5 [H5 H]].
  apply reach_cat_inv in H. destruct H as [a6 [H6 H7]].
  apply reach_grp_inv in H5. destruct H5 as [b [G [Eb Cb]]].
  (* the captures *)
  assert (C : m_caps st = [(1%nat, firstn (m_pos b - m_pos a4) (m_rest a4))]).
  { rewrite (reach_group_free _ _ _ H7 I), (reach_group_free _ _ _ H6 I), Cb.
    apply reach_cat_inv in G. destruct G as [g1 [G1 G]].
    apply reach_cat_inv in G. destruct G as [g2 [G2 G3]].
    rewrite (reach_group_free _ _ _ G3 I), (reach_group_free _ _ _ G2 I),
      (reach_group_free _ _ _ G1 I), (reach_group_free _ _ _ H4 I),
      (reach_group_free _ _ _ H3 I), (reach_group_free _ _ _ H2 I),
      (reach_group_free _ _ _ H1 (lit_group_free name)).
    reflexivity. }
  destruct (reach_consumed _ _ _ G) as [w [Ew Pw]].
  assert (Fw : firstn (m_pos b - m_pos a4) (m_rest a4) = w).
  { rewrite Ew, Pw.
    replace (m_pos a4 + length w - m_pos a4)%nat with (length w + 0)%nat
      by lia.
    rewrite firstn_app_2. simpl. apply app_nil_r. }
  rewrite Fw in C.
  apply reach_lit_inv in H1. simpl in H1.
  apply reach_star_ws in H2. destruct H2 as [s1 [E2 F2]].
  apply reach_the_chr in H3.
  apply reach_star_ws in H4. destruct H4 as [s2 [E4 F4]].
  apply reach_star_ws in H6. destruct H6 as [s3 [E6 F6]].
  apply reach_the_chr in H7.
  exists s1, s2, w, s3, (m_rest st).
  split.
  { rewrite H1, E2, H3, E4, Ew, <- Eb, E6, H7. reflexivity. }
  split; [exact F2|]. split; [exact F4|]. split; [exact F6|].
  split; [|exact C].
  apply reach_cat_inv in G. destruct G as [g1 [G1 G]].
  apply reach_cat_inv in G. destruct G as [g2 [G2 G3]].
  apply reach_the_chr in G1. apply reach_the_chr in G3.
  destruct (reach_consumed _ _ _ G2) as [Y [EY _]].
  exists Y. rewrite G1, EY, G3 in Ew.
  change (91%N :: Y ++ 93%N :: m_rest b)
    with ((91%N :: Y) ++ [93%N] ++ m_rest b) in Ew.
  rewrite !app_assoc in Ew. apply app_inv_tail in Ew.
  rewrite <- Ew. simpl. reflexivity.
Qed.

Lemma spaces_before :
  forall (s : str) (c : cp) (l l' : str),
    forallb is_space s = true -> is_space c = false ->
    s ++ l = c :: l' -> s = [] /\ l = c :: l'.
Proof.
  intros [|d s] c l l' F Hc E.
  - split; [reflexivity|exact E].
  - simpl in E. injection E as -> _. simpl in F.
    rewrite Hc in F. discriminate F.
Qed.

Lemma one_space_before :
  forall (s : str) (c : cp) (l l' : str),
    forallb is_space s = true -> is_space c = false ->
    (forall t, l <> 32%N :: t) ->
    s ++ l = 32%N :: c :: l' -> s = [32%N] /\ l = c :: l'.
Proof.
  intros [|d s] c l l' F Hc Hl E.
  - simpl in E. exfalso. apply (Hl _ E).
  - simpl in E. injection E as -> E. simpl in F.
    destruct (spaces_before s c l l' F Hc E) as [-> ->].
    split; reflexivity.
Qed.

Lemma re_search_at_start :
  forall r s st,
    rmatch r Some (MState 0 s []) = Some st ->
    re_search r s = Some (m_caps st).
Proof.
  intros r s st H. unfold re_search.
  destruct s; simpl; rewrite H; reflexivity.
Qed.

(** The array of a text made of the name, [ = ], a bracketed text, a
    semicolon and a line break is a beginning of the bracketed text. *)
Lemma wrapped_payload_of_shape :
  forall name X,
    exists payload rest,
      option_map (fun m => group_str m 1)
        (re_search (wrapped name)
           (name ++ [32%N; 61%N; 32%N]
            ++ (91%N :: X ++ [93%N]) ++ [59%N; 10%N]))
      = Some payload
      /\ 91%N :: X ++ [93%N] = payload ++ rest
      /\ exists Y, payload = 91%N :: Y ++ [93%N].
Proof.
  intros name X.
  pose proof (wrapped_matches name X [10%N]) as M.
  destruct (rmatch (wrapped name) Some
              (MState 0 (name ++ [32%N; 61%N; 32%N]
                 ++ (91%N :: X ++ [93%N]) ++ [59%N; 10%N]) []))
    as [st|] eqn:E; [clear M|contradiction].
  rewrite (re_search_at_start _ _ _ E). simpl option_map.
  apply rmatch_sound in E. destruct E as [st' [R E]]. injection E as ->.
  apply reach_wrapped_inv in R.
  destruct R as [s1 [s2 [w [s3 [tail [ET [F1 [F2 [F3 [[Y EY] C]]]]]]]]]].
  apply app_inv_head in ET. cbn [app] in ET.
  symmetry in ET.
  apply one_space_before in ET; [|exact F1|reflexivity|discriminate].
  destruct ET as [-> ET]. injection ET as ET.
  apply (one_space_before s2 91%N _ _ F2 eq_refl) in ET;
    [|rewrite EY; discriminate].
  destruct ET as [-> ET].
  unfold group_str. rewrite C. simpl group.
  exists w.
  change (91%N :: (X ++ [93%N]) ++ [59%N; 10%N])
    with ((91%N :: X ++ [93%N]) ++ [59%N; 10%N]) in ET.
  apply app_eq_app in ET. destruct ET as [l [[E1 E2]|[E1 E2]]].
  - destruct l as [|c1 [|c2 [|c3 l]]].
    + exists []. split; [reflexivity|]. rewrite E1, !app_nil_r.
      split; [reflexivity|]. exists X. reflexivity.
    + exfalso. simpl in E2. injection E2 as _ E2.
      destruct s3 as [|d s3]; [discriminate E2|].
      simpl in E2. injection E2 as _ E2.
      destruct s3; discriminate E2.
    + exfalso. simpl in E2. injection E2 as _ _ E2.
      destruct s3; discriminate E2.
    + exfalso. simpl in E2. injection E2 as _ _ E2. discriminate E2.
  - exists l. split; [reflexivity|]. split; [exact E1|]. exists Y. exact EY.
Qed.

(** ** The file write_js writes *)

Lemma bracketed :
  forall A B C : str,
    [91%N] ++ A ++ B ++ C ++ [93%N] = 91%N :: (A ++ B ++ C) ++ [93%N].
Proof.
  intros A B C. simpl. rewrite <- !app_assoc. reflexivity.
Qed.

(** The text of a list starts and ends with a bracket. *)
Lemma dumps_list_brackets :
  forall l, exists X, json_dumps (PyList l) = 91%N :: X ++ [93%N].
Proof.
  intros [|x l].
  - exists []. reflexivity.
  - unfold json_dumps. cbn [dumps].
    change (u "[") with [91%N]. change (u "]") with [93%N].
    eexists. apply bracketed.
Qed.

Lemma assignment_text :
  u "window.questionsData = " = u "window.questionsData" ++ [32%N; 61%N; 32%N].
Proof. vm_compute. reflexivity. Qed.

Lemma write_js_text :
  forall q_list D,
    json_dumps (PyList q_list) = D ->
    write_js q_list
    = u "window.questionsData" ++ [32%N; 61%N; 32%N] ++ D ++ [59%N; 10%N].
Proof.
  intros q_list D E. unfold write_js. rewrite E, assignment_text.
  generalize (u "window.questionsData"). intros name.
  change (u ";") with [59%N].
  rewrite <- app_assoc. reflexivity.
Qed.

(** X17: the file write_js writes has the shape merge_existing looks for,
    for every list of values: the pattern of the merge matches it, and
    the array it extracts starts at the opening bracket of the written
    array, is a beginning of the written array and ends with a closing
    bracket. *)
Theorem write_js_has_shape :
  forall q_list : list pyval,
    exists payload rest : str,
      wrapped_payload (write_js q_list) = Some payload
      /\ json_dumps (PyList q_list) = payload ++ rest
      /\ exists inner, payload = 91%N :: inner ++ [93%N].
Proof.
  intros q_list. destruct (dumps_list_brackets q_list) as [X E].
  rewrite (write_js_text q_list _ E), E. unfold wrapped_payload.
  change RE_WRAPPED with (wrapped (u "window.questionsData")).
  apply wrapped_payload_of_shape.
Qed.

(** ** One label for each token of an answer *)

Section TokenLabels.
Context {UD : UnicodeData}.

Lemma first_capital_inv :
  forall t l,
    first_capital t = Some l ->
    exists c rest, l = [c] /\ (65 <= c <= 90)%N /\ t = c :: rest.
Proof.
  intros [|c rest] l H; simpl in H; [discriminate H|].
  destruct (65 <=? c)%N eqn:E1; simpl in H; [|discriminate H].
  destruct (c <=? 90)%N eqn:E2; [|discriminate H].
  injection H as <-. exists c, rest. split; [reflexivity|].
  apply N.leb_le in E1. apply N.leb_le in E2. repeat split; assumption.
Qed.

Lemma first_capitals_length :
  forall ts,
    (length (flat_map (fun t => match first_capital t with
                                | Some l => [l]
                                | None => []
                                end) ts) <= length ts)%nat.
Proof.
  induction ts as [|t ts IH]; simpl; [lia|].
  destruct (first_capital t); simpl; lia.
Qed.

Lemma keep_first_length :
  forall (A : Type) (key : A -> str) (l : list A),
    (length (keep_first key l) <= length l)%nat.
Proof.
  intros A key l. induction l as [|x l IH]; simpl; [lia|].
  pose proof (filter_length_le (fun y => negb (str_eqb (key y) (key x)))
                (keep_first key l)).
  lia.
Qed.

Lemma split_runs_no_run :
  forall cls s piece,
    forallb (fun c => negb (cls c)) s = true ->
    split_runs cls piece false s = [rev piece ++ s].
Proof.
  induction s as [|c s IH]; intros piece H; simpl.
  - rewrite app_nil_r. reflexivity.
  - simpl in H. apply andb_true_iff in H. destruct H as [Hc H].
    apply negb_true_iff in Hc. rewrite Hc. rewrite (IH _ H). simpl.
    rewrite <- app_assoc. reflexivity.
Qed.

End TokenLabels.

(** X18: for a question that is not true-false, the answer holds at most
    one label for each token of the answer text, and every label is the
    first character of one of the tokens, a capital letter from A to Z:
    what follows the first character of a token is not read. *)
Theorem normalize_answers_one_label_per_piece :
  forall (UD : UnicodeData) (ans_text q_type : str) (l : list str),
    q_type <> u "判断" ->
    normalize_answers ans_text q_type = Ok l ->
    (length l <= length (tokens [] (upper (strip ans_text))))%nat
    /\ forall x, In x l ->
         exists c rest,
           x = [c] /\ (65 <= c <= 90)%N
           /\ In (c :: rest) (tokens [] (upper (strip ans_text))).
Proof.
  intros UD ans_text q_type l Hq H.
  rewrite (normalize_answers_extracted ans_text q_type Hq) in H.
  injection H as <-. unfold extracted_labels. split.
  - eapply Nat.le_trans; [apply keep_first_length|].
    apply first_capitals_length.
  - intros x Hx. apply keep_first_incl in Hx.
    apply in_flat_map in Hx. destruct Hx as [t [Ht Hx]].
    destruct (first_capital t) as [l|] eqn:E; [|contradiction].
    destruct Hx as [<-|[]].
    destruct (first_capital_inv t l E) as [c [rest [-> [Hc ->]]]].
    exists c, rest. repeat split; try apply Hc. exact Ht.
Qed.

Lemma normalize_answers_one_label_per_piece_witness :
  (length [u "A"; u "C"]
   <= length (tokens [] (@upper AsciiTables (strip (u "ab, 3x, cd")))))%nat
  /\ forall x, In x [u "A"; u "C"] ->
       exists c rest,
         x = [c] /\ (65 <= c <= 90)%N
         /\ In (c :: rest)
              (tokens [] (@upper AsciiTables (strip (u "ab, 3x, cd")))).
Proof.
  apply (normalize_answers_one_label_per_piece AsciiTables
           (u "ab, 3x, cd") (u "多选")).
  - apply (proj1 (str_eqb_neq _ _)). vm_compute. reflexivity.
  - vm_compute. reflexivity.
Defined.

(** X19: for a question that is not true-false, an answer text without a
    separator gives one label at most: its first character, when that is
    a capital letter from A to Z after the conversion to upper case, and
    nothing otherwise.  The letters after the first are dropped. *)
Theorem normalize_answers_unseparated :
  forall (UD : UnicodeData) (ans_text q_type : str),
    q_type <> u "判断" ->
    forallb (fun c => negb (is_sep c)) (upper (strip ans_text)) = true ->
    normalize_answers ans_text q_type
    = Ok match upper (strip ans_text) with
         | c :: _ => if is_upper_AZ c then [[c]] else []
         | [] => []
         end.
Proof.
  intros UD ans_text q_type Hq H.
  rewrite (normalize_answers_choice ans_text q_type Hq).
  unfold answer_parts. rewrite (split_runs_no_run is_sep _ [] H).
  simpl rev. simpl app.
  destruct (upper (strip ans_text)) as [|c s]; [reflexivity|].
  simpl filter. unfold leading_letters. simpl flat_map.
  unfold leading_letter, re_match. simpl.
  destruct (is_upper_AZ c); reflexivity.
Qed.

Lemma normalize_answers_unseparated_witness :
  @normalize_answers AsciiTables (u "ABC") (u "多选") = Ok [u "A"].
Proof.
  apply (normalize_answers_unseparated AsciiTables (u "ABC") (u "多选")).
  - apply (proj1 (str_eqb_neq _ _)). vm_compute. reflexivity.
  - vm_compute. reflexivity.
Defined.

(** ** Blank paragraphs *)

Section BlankLines.
Context {UD : UnicodeData}.

(** A blank line changes nothing, whatever the state of the loop. *)
Lemma step_blank :
  forall respect st, step respect st [] = Ok st.
Proof.
  intros respect st. unfold step.
  change (strip []) with (@nil cp).
  change (re_match RE_Q_START []) with (@None match_obj).
  change (re_match RE_OPT []) with (@None match_obj).
  change (re_match RE_ANS []) with (@None match_obj).
  cbv iota. rewrite andb_false_r. reflexivity.
Qed.

Lemma run_without_blanks :
  forall respect lines st,
    run respect st (filter str_truthy lines) = run respect st lines.
Proof.
  induction lines as [|l lines IH]; intros st; [reflexivity|].
  destruct l as [|c l].
  - simpl filter. simpl run. rewrite step_blank. simpl. apply IH.
  - simpl filter. simpl run.
    destruct (step respect st (c :: l)) as [st'|e]; simpl;
      [apply IH|reflexivity].
Qed.

Lemma parse_docx_without_blanks :
  forall paragraphs start_number respect,
    parse_docx
      (filter (fun t => str_truthy (paragraph_line t)) paragraphs)
      start_number respect
    = parse_docx paragraphs start_number respect.
Proof.
  intros paragraphs start_number respect. unfold parse_docx.
  assert (E : run respect (PState [] empty_dict start_number)
                (map paragraph_line
                   (filter (fun t => str_truthy (paragraph_line t))
                      paragraphs) ++ [[]])
              = run respect (PState [] empty_dict start_number)
                  (map paragraph_line paragraphs ++ [[]])).
  { rewrite !run_app.
    rewrite <- (run_without_blanks respect (map paragraph_line paragraphs)).
    replace (filter str_truthy (map paragraph_line paragraphs))
      with (map paragraph_line
              (filter (fun t => str_truthy (paragraph_line t)) paragraphs));
      [reflexivity|].
    induction paragraphs as [|t ps IH]; simpl; [reflexivity|].
    destruct (str_truthy (paragraph_line t)); simpl; rewrite IH;
      reflexivity. }
  rewrite E. reflexivity.
Qed.

End BlankLines.

(** X20: paragraphs that are blank (empty, or white space only, the
    ideographic space included) have no effect on the result: the
    document without them is parsed to the same records, or raises the
    same exception. *)
Theorem blank_paragraphs_ignored :
  forall (UD : UnicodeData) (paragraphs : list str) (start_number : Z)
         (respect_word_number : bool),
    parse_docx
      (filter (fun t => str_truthy (paragraph_line t)) paragraphs)
      start_number respect_word_number
    = parse_docx paragraphs start_number respect_word_number.
Proof. intros UD. apply parse_docx_without_blanks. Qed.

(** ** A number too long for int *)

Section LongNumber.
Context {UD : UnicodeData}.

Lemma step_long_number :
  forall respect st raw,
    is_q_start raw = true ->
    (int_max_str_digits < N.of_nat (length (number_text raw)))%N ->
    step respect st raw = Raise ValueError.
Proof.
  intros respect st raw Hs Hd. unfold is_q_start in Hs.
  unfold number_text in Hd.
  destruct (re_match RE_Q_START (strip raw)) as [m|] eqn:Hm;
    [|discriminate Hs].
  apply (step_start_raises respect st raw m ValueError Hm).
  apply int_raises_iff. split; [exact Hd|reflexivity].
Qed.

Lemma run_long_number :
  forall respect pre raw post st,
    Forall line_passes pre ->
    is_q_start raw = true ->
    (int_max_str_digits < N.of_nat (length (number_text raw)))%N ->
    run respect st (pre ++ raw :: post) = Raise ValueError.
Proof.
  intros respect pre raw post st Hpre Hs Hd. rewrite run_app.
  destruct (run_total respect pre st Hpre) as [st0 E]. rewrite E.
  simpl. rewrite (step_long_number respect st0 raw Hs Hd). reflexivity.
Qed.

End LongNumber.

(** X21: a question-start line whose number has more digits than [int]
    converts makes [parse_docx] raise [ValueError], with or without
    declared numbering (the number is converted before the mode is looked
    at), when the paragraphs before it raise nothing. *)
Theorem long_number_raises :
  forall (UD : UnicodeData) (pre : list str) (p : str) (post : list str)
         (s : Z) (respect : bool),
    Forall
      (fun q =>
         (is_answer_line (paragraph_line q) = true ->
          answer_parts (answer_text (paragraph_line q)) <> [])
         /\ (is_q_start (paragraph_line q) = true ->
             (N.of_nat (length (number_text (paragraph_line q)))
              <= int_max_str_digits)%N))
      pre ->
    is_q_start (paragraph_line p) = true ->
    (int_max_str_digits
     < N.of_nat (length (number_text (paragraph_line p))))%N ->
    parse_docx (pre ++ p :: post) s respect = Raise ValueError.
Proof.
  intros UD pre p post s respect Hpre Hs Hd. unfold parse_docx.
  rewrite map_app. cbn [map]. rewrite <- app_assoc, <- app_comm_cons.
  rewrite (run_long_number respect (map paragraph_line pre)
             (paragraph_line p) _ _ (proj2 (Forall_map _ _ _) Hpre) Hs Hd).
  reflexivity.
Qed.

Lemma long_number_raises_witness :
  @parse_docx AsciiTables
    ([u "1. 甲"; u "答案：A"]
       ++ (repeat 49%N 4301 ++ u ". 乙") :: [u "答案：B"]) 1 false
  = Raise ValueError.
Proof.
  apply (long_number_raises AsciiTables [u "1. 甲"; u "答案：A"]
           (repeat 49%N 4301 ++ u ". 乙") [u "答案：B"] 1 false).
  - repeat (apply Forall_cons;
            [split; vm_compute; intros H; try discriminate H; intros H';
             discriminate H'|]).
    apply Forall_nil.
  - vm_compute. reflexivity.
  - vm_compute. reflexivity.
Defined.
